(** * Signal Desktop: the stories duck and the edit-eligibility rule

    A shallow embedding of [ts/state/ducks/stories.ts] (the reducer and the
    thunks [deleteStoryForEveryone], [markStoryRead], [reactToStory]) and of
    [ts/util/canEditMessage.ts], with the properties of the stories store
    proved over it.

    Conventions of the embedding.
    - A JavaScript [number] holding a timestamp is a [Z] (timestamps are
      integral milliseconds; NaN does not occur).
    - An optional field [f?: T] is an [option T]; [undefined] is [None].
    - An object used as a dictionary is a [gmap string _]; lodash's [isEqual]
      on such objects is then Leibniz equality.
    - [return state] and [return {...state, ...}] differ by reference in the
      source; the reducer therefore answers [Identical] or [Updated next].
    - A thunk is run against a record of collaborators and yields the trace
      of the calls it made together with its completion (normal or thrown). *)

From Stdlib Require Import ZArith Lia.
From stdpp Require Import base option numbers strings list gmap sorting.

(** ** Types declared outside the two files *)

(** [ReadStatus] of messages/MessageReadStatus.  The duck names [Unread] and
    [Viewed]; [Read] is the remaining member of the enum. *)
Inductive ReadStatus := Unread | Read | Viewed.

#[global] Instance ReadStatus_eq_dec : EqDecision ReadStatus.
Proof. solve_decision. Defined.

(** [AttachmentType]: the duck writes the field [url]; every other field of
    the attachment is carried, untouched, in [rest]. *)
Module Attachment.
Record t {Rest : Type} := mk { url : option string; rest : Rest }.
Arguments t : clear implicits.
Arguments mk {Rest}.
End Attachment.

(** The download-state predicates of types/Attachment, which the duck calls
    on an optional attachment. *)
Class AttachmentHelpers (Rest : Type) := {
  isDownloaded : option (Attachment.t Rest) → bool;
  isDownloading : option (Attachment.t Rest) → bool
}.

(** [MessageAttributesType], restricted to the fields the two files read. *)
Module Message.
Record t {SendState Edit : Type} := mk {
  id : string;
  body : option string;
  conversationId : string;
  deletedForEveryone : option bool;
  editHistory : option (list Edit);
  sendStateByConversationId : option (gmap string SendState);
  sent_at : Z;
  source : option string;
  sourceUuid : option string;
  storyId : option string;
  type : string
}.
Arguments t : clear implicits.
Arguments mk {SendState Edit}.
End Message.

(** [StoryDataType]. *)
Module Story.
Record t {Rest Reaction SendState : Type} := mk {
  attachment : option (Attachment.t Rest);
  messageId : string;
  canReplyToStory : option bool;
  conversationId : string;
  deletedForEveryone : option bool;
  reactions : option (list Reaction);
  readStatus : option ReadStatus;
  sendStateByConversationId : option (gmap string SendState);
  source : option string;
  sourceUuid : option string;
  storyDistributionListId : option string;
  timestamp : Z;
  type : string
}.
Arguments t : clear implicits.
Arguments mk {Rest Reaction SendState}.

Section Updates.
Context {Rest Reaction SendState : Type}.
Implicit Type story : t Rest Reaction SendState.

(** [{...story, readStatus: r}] *)
Definition with_readStatus (r : ReadStatus) story : t Rest Reaction SendState :=
  mk (attachment story) (messageId story) (canReplyToStory story)
     (conversationId story) (deletedForEveryone story) (reactions story)
     (Some r) (sendStateByConversationId story) (source story)
     (sourceUuid story) (storyDistributionListId story) (timestamp story)
     (type story).

(** [{...story, deletedForEveryone: d}] *)
Definition with_deletedForEveryone (d : bool) story : t Rest Reaction SendState :=
  mk (attachment story) (messageId story) (canReplyToStory story)
     (conversationId story) (Some d) (reactions story)
     (readStatus story) (sendStateByConversationId story) (source story)
     (sourceUuid story) (storyDistributionListId story) (timestamp story)
     (type story).

(** [{...story, attachment: a}] *)
Definition with_attachment (a : Attachment.t Rest) story : t Rest Reaction SendState :=
  mk (Some a) (messageId story) (canReplyToStory story)
     (conversationId story) (deletedForEveryone story) (reactions story)
     (readStatus story) (sendStateByConversationId story) (source story)
     (sourceUuid story) (storyDistributionListId story) (timestamp story)
     (type story).
End Updates.
End Story.

(** The reply thread of [StoriesStateType]. *)
Module ReplyState.
Record t {M : Type} := mk { messageId : string; replies : list M }.
Arguments t : clear implicits.
Arguments mk {M}.
End ReplyState.

(** ** JavaScript built-ins and small helpers *)

(** Truthiness of an optional boolean field. *)
Definition truthy (flag : option bool) : bool :=
  match flag with Some true => true | _ => false end.

(** Truthiness of an optional string: [Boolean(message.body)]. *)
Definition truthyString (s : option string) : bool :=
  match s with Some EmptyString | None => false | Some _ => true end.

(** [Array.prototype.findIndex]; [None] is the source's [-1]. *)
Definition findIndex {A} (P : A → Prop) `{∀ x, Decision (P x)} (arr : list A) : option nat :=
  fst <$> list_find P arr.

(** [Array.prototype.find]; [None] is [undefined]. *)
Definition find {A} (P : A → Prop) `{∀ x, Decision (P x)} (arr : list A) : option A :=
  snd <$> list_find P arr.

(** Modelled from the spec: [replaceIndex] of util/replaceIndex, which is not
    among the sources; the spec has it "replace in place".  Every call site
    passes an index that [findIndex] has just returned, hence one in range. *)
Definition replaceIndex {A} (arr : list A) (index : nat) (newItem : A) : list A :=
  <[index := newItem]> arr.

(** [Array.prototype.sort(compareFn)].  The sort is the engine's; it is taken
    to be a merge sort that asks the comparator about two elements and keeps
    [a] in front of [b] when [compareFn(a, b) <= 0]. *)
Definition keptInFront {A} (compareFn : A → A → Z) : relation A :=
  λ a b, (compareFn a b ≤ 0)%Z.

#[global] Instance keptInFront_dec {A} (compareFn : A → A → Z) :
  RelDecision (keptInFront compareFn).
Proof. intros a b. unfold keptInFront. apply _. Defined.

Definition sort {A} (compareFn : A → A → Z) (arr : list A) : list A :=
  merge_sort (keptInFront compareFn) arr.

(** A JavaScript [Set] of strings: its members in insertion order. *)
Definition SetAdd (x : string) (s : list string) : list string :=
  if decide (x ∈ s) then s else s ++ [x].

Definition SetDelete (x : string) (s : list string) : list string :=
  filter (λ y, y ≠ x) s.

(** [new Set(iterable)] *)
Definition SetFrom (xs : list string) : list string :=
  foldl (λ s x, SetAdd x s) [] xs.

(** [Object.keys] of a dictionary. *)
Definition ObjectKeys {V} (o : gmap string V) : list string :=
  (map_to_list o).*1.

(** Modelled from the spec: the constant [DAY] of util/durations, which is not
    among the sources; "duration = one day", in milliseconds. *)
Definition DAY : Z := 24 * 60 * 60 * 1000.

(** ** What the thunks exchange with their collaborators *)

(** A thrown error, or the reason of a rejected promise. *)
Inductive Exn := JsError (message : string).

(** A conversation, known here by its [id]: the [recipient] of a send-state
    entry and the [attributes] handed to [sendDeleteForEveryoneMessage]. *)
Module Conversation.
Record t := mk { id : string }.
End Conversation.

(** [StorySendStateType] *)
Module StorySendState.
Record t := mk { recipient : Conversation.t }.
End StorySendState.

(** [StoryViewType], restricted to the fields [deleteStoryForEveryone]
    reads. *)
Module StoryView.
Record t := mk {
  messageId : string;
  timestamp : Z;
  sendState : option (list StorySendState.t)
}.
End StoryView.

(** The options of [sendDeleteForEveryoneMessage]. *)
Module DeleteOptions.
Record t := mk { deleteForEveryoneDuration : Z; id : string; timestamp : Z }.
End DeleteOptions.

(** [SyncType]: a viewed receipt. *)
Module Sync.
Record t := mk {
  messageId : string;
  senderE164 : option string;
  senderUuid : option string;
  timestamp : Z
}.
End Sync.

(** The argument of [dataInterface.addNewStoryRead]. *)
Module StoryRead.
Record t := mk {
  authorId : option string;
  conversationId : string;
  storyId : string;
  storyReadDate : Z
}.
End StoryRead.

(** The argument of [enqueueReactionForSend]. *)
Module ReactionForSend.
Record t := mk { messageId : string; emoji : string; remove : bool }.
End ReactionForSend.

(** The toast shown by [reactToStory]. *)
Inductive Toast := ToastReactionFailed.

(** ** The store *)

Section Duck.
Context {Rest Reaction SendState Edit : Type}.
Context `{!EqDecision SendState} `{!AttachmentHelpers Rest}.

Local Abbreviation Story := (Story.t Rest Reaction SendState).
Local Abbreviation Message := (Message.t SendState Edit).

(** [StoriesStateType] *)
Record StoriesStateType := mkState {
  isShowingStoriesView : bool;
  replyState : option (ReplyState.t Message);
  stories : list Story
}.

(** [StoriesActionType], together with the [NOOP] marker that two of the
    thunks dispatch. *)
Inductive StoriesActionType :=
| DOE_STORY (payload : string)
| LOAD_STORY_REPLIES (messageId : string) (replies : list Message)
| MARK_STORY_READ (payload : string)
| MESSAGE_CHANGED (id conversationId : string) (data : Message)
| MESSAGE_DELETED (id conversationId : string)
| REPLY_TO_STORY (payload : Message)
| RESOLVE_ATTACHMENT_URL (messageId attachmentUrl : string)
| STORY_CHANGED (payload : Story)
| TOGGLE_VIEW
| NOOP.

(** What the reducer hands back: the very object it was given, or a new
    one. *)
Inductive Reduced :=
| Identical
| Updated (next : StoriesStateType).

(** [getEmptyState()], with no override. *)
Definition getEmptyState : StoriesStateType := mkState false None [].

(** [{...state, stories}] *)
Definition withStories (state : StoriesStateType) (l : list Story) : StoriesStateType :=
  mkState (isShowingStoriesView state) (replyState state) l.

(** [{...state, replyState}] *)
Definition withReplyState (state : StoriesStateType) (r : ReplyState.t Message) : StoriesStateType :=
  mkState (isShowingStoriesView state) (Some r) (stories state).

(** The comparator handed to [sort] when a story is added. *)
Definition byTimestamp (a b : Story) : Z :=
  if bool_decide (Story.timestamp a > Story.timestamp b)%Z then 1%Z else (-1)%Z.

(** The flags computed for a story that is already in the list. *)
Definition isDownloadingAttachment (newStory : Story) : bool :=
  isDownloading (Story.attachment newStory).

Definition hasAttachmentDownloaded (prevStory newStory : Story) : bool :=
  negb (isDownloaded (Story.attachment prevStory))
  && isDownloaded (Story.attachment newStory).

Definition readStatusChanged (prevStory newStory : Story) : bool :=
  negb (bool_decide (Story.readStatus prevStory = Story.readStatus newStory)).

Definition reactionsChanged (prevStory newStory : Story) : bool :=
  negb (bool_decide (length <$> Story.reactions prevStory
                     = length <$> Story.reactions newStory)).

Definition hasBeenDeleted (prevStory newStory : Story) : bool :=
  negb (truthy (Story.deletedForEveryone prevStory))
  && truthy (Story.deletedForEveryone newStory).

Definition hasSendStateChanged (prevStory newStory : Story) : bool :=
  negb (bool_decide (Story.sendStateByConversationId prevStory
                     = Story.sendStateByConversationId newStory)).

Definition shouldReplace (prevStory newStory : Story) : bool :=
  isDownloadingAttachment newStory
  || hasAttachmentDownloaded prevStory newStory
  || hasBeenDeleted prevStory newStory
  || hasSendStateChanged prevStory newStory
  || readStatusChanged prevStory newStory
  || reactionsChanged prevStory newStory.

(** [reducer].  The payload of [STORY_CHANGED] has exactly the thirteen
    picked fields, so [pick] copies it.  Where the source calls
    [findIndex] and then reads the array at the index found, [list_find]
    gives the index and the element at once. *)
Definition reducer (state : StoriesStateType) (action : StoriesActionType) : Reduced :=
  match action with
  | TOGGLE_VIEW =>
      Updated (mkState (negb (isShowingStoriesView state))
                       (replyState state) (stories state))
  | MESSAGE_DELETED id _ =>
      let nextStories := filter (λ story, Story.messageId story ≠ id) (stories state) in
      if decide (length nextStories = length (stories state)) then Identical
      else Updated (withStories state nextStories)
  | STORY_CHANGED payload =>
      let newStory := payload in
      match list_find (λ existingStory,
                         Story.messageId existingStory = Story.messageId newStory)
                      (stories state) with
      | Some (prevStoryIndex, prevStory) =>
          if negb (shouldReplace prevStory newStory) then Identical
          else Updated (withStories state
                          (replaceIndex (stories state) prevStoryIndex newStory))
      | None =>
          Updated (withStories state (sort byTimestamp (stories state ++ [newStory])))
      end
  | MARK_STORY_READ payload =>
      Updated (withStories state
                 ((λ story, if decide (Story.messageId story = payload)
                            then Story.with_readStatus Viewed story
                            else story) <$> stories state))
  | LOAD_STORY_REPLIES messageId replies =>
      Updated (withReplyState state (ReplyState.mk messageId replies))
  | MESSAGE_CHANGED id _ data =>
      match replyState state with
      | Some replyState =>
          if decide (Some (ReplyState.messageId replyState) = Message.storyId data)
          then
            match findIndex (λ reply, Message.id reply = id)
                            (ReplyState.replies replyState) with
            | None =>
                Updated (withReplyState state
                           (ReplyState.mk (ReplyState.messageId replyState)
                              (ReplyState.replies replyState ++ [data])))
            | Some messageIndex =>
                Updated (withReplyState state
                           (ReplyState.mk (ReplyState.messageId replyState)
                              (replaceIndex (ReplyState.replies replyState)
                                            messageIndex data)))
            end
          else Identical
      | None => Identical
      end
  | REPLY_TO_STORY payload =>
      match replyState state with
      | None => Identical
      | Some replyState =>
          Updated (withReplyState state
                     (ReplyState.mk (ReplyState.messageId replyState)
                        (ReplyState.replies replyState ++ [payload])))
      end
  | RESOLVE_ATTACHMENT_URL messageId attachmentUrl =>
      match list_find (λ existingStory, Story.messageId existingStory = messageId)
                      (stories state) with
      | None => Identical
      | Some (storyIndex, story) =>
          match Story.attachment story with
          | None => Identical
          | Some attachment =>
              let storyWithResolvedAttachment :=
                Story.with_attachment
                  (Attachment.mk (Some attachmentUrl) (Attachment.rest attachment))
                  story in
              Updated (withStories state
                         (replaceIndex (stories state) storyIndex
                                       storyWithResolvedAttachment))
          end
      end
  | DOE_STORY payload =>
      match list_find (λ existingStory, Story.messageId existingStory = payload)
                      (stories state) with
      | None => Identical
      | Some (prevStoryIndex, prevStory) =>
          Updated (withStories state
                     (replaceIndex (stories state) prevStoryIndex
                        (Story.with_deletedForEveryone true prevStory)))
      end
  | NOOP => Identical
  end.

(** The state after a transition. *)
Definition nextState (state : StoriesStateType) (action : StoriesActionType) : StoriesStateType :=
  match reducer state action with
  | Identical => state
  | Updated next => next
  end.
(** *** Vocabulary of the properties *)

Definition messageIds (state : StoriesStateType) : list string :=
  Story.messageId <$> stories state.

(** At most one view-model per [messageId]. *)
Definition uniqueMessageIds (state : StoriesStateType) : Prop :=
  NoDup (messageIds state).

(** Ascending by timestamp: every story is at most as late as every story
    after it. *)
Definition ascendingByTimestamp (l : list Story) : Prop :=
  StronglySorted (λ a b, (Story.timestamp a ≤ Story.timestamp b)%Z) l.

(** [story] sits at index [i] and is the first entry whose id is [id]. *)
Definition firstWithId (id : string) (l : list Story) (i : nat) (story : Story) : Prop :=
  l !! i = Some story
  ∧ Story.messageId story = id
  ∧ ∀ j other, l !! j = Some other → j < i → Story.messageId other ≠ id.

(** The spec's "unchanged relevant field set": same attachment download
    state, same deletion flag, deep-equal send-state mapping, same read
    status, same reaction-list length. *)
Definition sameRelevantFields (prevStory newStory : Story) : Prop :=
  isDownloaded (Story.attachment prevStory) = isDownloaded (Story.attachment newStory)
  ∧ isDownloading (Story.attachment prevStory) = isDownloading (Story.attachment newStory)
  ∧ Story.deletedForEveryone prevStory = Story.deletedForEveryone newStory
  ∧ Story.sendStateByConversationId prevStory = Story.sendStateByConversationId newStory
  ∧ Story.readStatus prevStory = Story.readStatus newStory
  ∧ length <$> Story.reactions prevStory = length <$> Story.reactions newStory.

(** The spec's list of transitions that call for a replacement; the first
    one reads "attachment transitioned into downloading". *)
Definition listedTransition (prevStory newStory : Story) : Prop :=
  (isDownloading (Story.attachment prevStory) = false
   ∧ isDownloading (Story.attachment newStory) = true)
  ∨ (isDownloaded (Story.attachment prevStory) = false
     ∧ isDownloaded (Story.attachment newStory) = true)
  ∨ (truthy (Story.deletedForEveryone prevStory) = false
     ∧ truthy (Story.deletedForEveryone newStory) = true)
  ∨ Story.sendStateByConversationId prevStory ≠ Story.sendStateByConversationId newStory
  ∨ Story.readStatus prevStory ≠ Story.readStatus newStory
  ∨ length <$> Story.reactions prevStory ≠ length <$> Story.reactions newStory.

(** What the reducer asks for before it replaces a story that is already
    listed: the disjunction [shouldReplace] computes, read as a
    proposition. *)
Definition replacementCalledFor (prevStory newStory : Story) : Prop :=
  isDownloading (Story.attachment newStory) = true
  ∨ (isDownloaded (Story.attachment prevStory) = false
     ∧ isDownloaded (Story.attachment newStory) = true)
  ∨ (truthy (Story.deletedForEveryone prevStory) = false
     ∧ truthy (Story.deletedForEveryone newStory) = true)
  ∨ Story.sendStateByConversationId prevStory ≠ Story.sendStateByConversationId newStory
  ∨ Story.readStatus prevStory ≠ Story.readStatus newStory
  ∨ length <$> Story.reactions prevStory ≠ length <$> Story.reactions newStory.

(** *** Thunks *)

(** One entry of a thunk's trace: a call with an effect outside the thunk. *)
Inductive Event :=
| LogWarn (text : string)
| LogError (text : string) (error : Exn) (messageId nextReaction : string)
| ShowToast (toast : Toast)
| EnqueueReactionForSend (job : ReactionForSend.t)
| MarkViewed (attributes : Message) (viewedAt : Z)
| ViewSyncJobQueueAdd (viewSyncs : list Sync.t)
| ViewedReceiptsJobQueueAdd (viewedReceipt : Sync.t)
| AddNewStoryRead (read : StoryRead.t)
| SendDeleteForEveryoneMessage (conversation : Conversation.t) (options : DeleteOptions.t)
| Dispatch (action : StoriesActionType).

(** What the collaborators answer.  An awaited call settles to a value
    ([inr]) or rejects ([inl]). *)
Record Collaborators := mkCollaborators {
  getMessageById : string → Exn + option Message;
  Date_now : Z;
  areWePrimaryDevice : bool;
  addNewStoryRead : StoryRead.t → Exn + unit;
  enqueueReactionForSend : ReactionForSend.t → Exn + unit;
  ConversationController_get : string → option Conversation.t
}.

(** A thunk's run: the trace so far and how the run completed. *)
Definition Thunk (A : Type) : Type := (list Event * (Exn + A))%type.

Definition completion {A} (run : Thunk A) : Exn + A := run.2.
Definition trace {A} (run : Thunk A) : list Event := run.1.

#[global] Instance Thunk_ret : MRet Thunk := λ A a, ([], inr a).

#[global] Instance Thunk_bind : MBind Thunk := λ A B k m,
  match m with
  | (t, inl e) => (t, inl e)
  | (t, inr a) => let '(t', r) := k a in (t ++ t', r)
  end.

Definition emit (e : Event) : Thunk unit := ([e], inr ()).

Definition await {A} (settled : Exn + A) : Thunk A := ([], settled).

(** [try { body } catch (error) { handler }] *)
Definition tryCatch {A} (body : Thunk A) (handler : Exn → Thunk A) : Thunk A :=
  match body with
  | (t, inl e) => let '(t', r) := handler e in (t ++ t', r)
  | (t, inr a) => (t, inr a)
  end.

(** [forEach] with a callback that has effects. *)
Definition forEach {A} (xs : list A) (callback : A → Thunk unit) : Thunk unit :=
  foldr (λ x rest, callback x ;; rest) (mret ()) xs.

(** The dispatches among the entries of a trace. *)
Definition dispatched (t : list Event) : list StoriesActionType :=
  omap (λ e, match e with Dispatch a => Some a | _ => None end) t.

(** The conversations a retraction was sent to. *)
Definition retractedTo (t : list Event) : list string :=
  omap (λ e, match e with
             | SendDeleteForEveryoneMessage c _ => Some (Conversation.id c)
             | _ => None
             end) t.

(** The recipients left after the stories of the store have been walked:
    the [Set] of [deleteStoryForEveryone] once both [forEach] are done. *)
Definition remainingRecipients (story : StoryView.t) (sendState : list StorySendState.t)
    (state : StoriesStateType) : list string :=
  let conversationIds :=
    SetFrom ((λ s, Conversation.id (StorySendState.recipient s)) <$> sendState) in
  foldl (λ ids item,
           if decide (Story.timestamp item ≠ StoryView.timestamp story) then ids
           else match Story.sendStateByConversationId item with
                | None => ids
                | Some byConversation =>
                    foldl (λ ids conversationId, SetDelete conversationId ids)
                          ids (ObjectKeys byConversation)
                end)
        conversationIds (stories state).

(** [deleteStoryForEveryone]: the retractions for the recipients that are
    left and whose conversation is known, then the dispatch. *)
Definition deleteStoryForEveryone (world : Collaborators) (story : StoryView.t)
    (state : StoriesStateType) : Thunk unit :=
  match StoryView.sendState story with
  | None => mret ()
  | Some sendState =>
      forEach (remainingRecipients story sendState state) (λ cid,
        match ConversationController_get world cid with
        | None => mret ()
        | Some conversation =>
            emit (SendDeleteForEveryoneMessage conversation
                    (DeleteOptions.mk DAY (StoryView.messageId story)
                                      (StoryView.timestamp story)))
        end) ;;
      emit (Dispatch (DOE_STORY (StoryView.messageId story)))
  end.

(** [markStoryRead].  The early [return]s are the branches that end in
    [mret ()]; [UUID.fromString(messageId)] is the id itself. *)
Definition markStoryRead (world : Collaborators) (messageId : string)
    (state : StoriesStateType) : Thunk unit :=
  match find (λ story, Story.messageId story = messageId) (stories state) with
  | None => emit (LogWarn ("markStoryRead: no matching story found: " +:+ messageId)%string)
  | Some matchingStory =>
      if negb (isDownloaded (Story.attachment matchingStory)) then mret ()
      else if negb (bool_decide (Story.readStatus matchingStory = Some Unread))
      then mret ()
      else
        message ← await (getMessageById world messageId);
        match message with
        | None => mret ()
        | Some message =>
            let storyReadDate := Date_now world in
            emit (MarkViewed message storyReadDate) ;;
            let viewedReceipt :=
              Sync.mk messageId (Message.source message)
                      (Message.sourceUuid message) (Message.sent_at message) in
            let viewSyncs := [viewedReceipt] in
            (if negb (areWePrimaryDevice world)
             then emit (ViewSyncJobQueueAdd viewSyncs) else mret ()) ;;
            emit (ViewedReceiptsJobQueueAdd viewedReceipt) ;;
            let read :=
              StoryRead.mk (Message.sourceUuid message)
                           (Message.conversationId message) messageId
                           storyReadDate in
            emit (AddNewStoryRead read) ;;
            await (addNewStoryRead world read) ;;
            emit (Dispatch (MARK_STORY_READ messageId))
        end
  end.

(** [reactToStory] *)
Definition reactToStory (world : Collaborators) (nextReaction messageId : string) : Thunk unit :=
  tryCatch
    (let job := ReactionForSend.mk messageId nextReaction false in
     emit (EnqueueReactionForSend job) ;;
     await (enqueueReactionForSend world job))
    (λ error,
       emit (LogError "Error enqueuing reaction"%string error messageId nextReaction) ;;
       emit (ShowToast ToastReactionFailed)) ;;
  emit (Dispatch NOOP).
End Duck.

(** ** Edit eligibility *)

Section CanEditMessage.
Context {SendState Edit : Type}.

Local Abbreviation Message := (Message.t SendState Edit).

(** The helpers [canEditMessage] imports, and the id of our own
    conversation as [window.ConversationController] reports it. *)
Record EditHelpers := mkEditHelpers {
  canEditMessages : bool;
  isOutgoing : Message → bool;
  isMoreRecentThan : Z → Z → bool;
  someSendStatus : option (gmap string SendState) → (SendState → bool) → bool;
  isSent : SendState → bool;
  getOurConversationId : option string
}.

Definition MAX_EDIT_COUNT : nat := 10.

Definition canEditMessage (h : EditHelpers) (message : Message) : bool :=
  let result :=
    canEditMessages h
    && negb (truthy (Message.deletedForEveryone message))
    && isOutgoing h message
    && isMoreRecentThan h (Message.sent_at message) DAY
    && bool_decide (default 0 (length <$> Message.editHistory message) ≤ MAX_EDIT_COUNT)
    && someSendStatus h (Message.sendStateByConversationId message) (isSent h)
    && truthyString (Message.body message) in
  if result then true
  else if decide (Some (Message.conversationId message) = getOurConversationId h)
  then canEditMessages h
       && negb (truthy (Message.deletedForEveryone message))
       && truthyString (Message.body message)
  else false.
End CanEditMessage.

(** ** A concrete store, for the examples *)

Module Sample.

(** The attachment fields besides [url], reduced to what the download-state
    predicates look at. *)
Inductive DownloadState := NotDownloaded | Downloading | Downloaded.

#[global] Instance helpers : AttachmentHelpers DownloadState := {|
  isDownloaded := λ a,
    match a with Some (Attachment.mk _ Downloaded) => true | _ => false end;
  isDownloading := λ a,
    match a with Some (Attachment.mk _ Downloading) => true | _ => false end
|}.

Inductive SendStatus := Pending | Sent.

#[global] Instance SendStatus_eq_dec : EqDecision SendStatus.
Proof. solve_decision. Defined.

Definition Story : Type := Story.t DownloadState unit SendStatus.
Definition Message : Type := Message.t SendStatus unit.
Definition State : Type := @StoriesStateType DownloadState unit SendStatus unit.
Definition Action : Type := @StoriesActionType DownloadState unit SendStatus unit.

(** A story of conversation "c" with the given id, timestamp, attachment
    state, read status and recipients. *)
Definition story (id : string) (ts : Z) (d : DownloadState) (r : ReadStatus)
    (sentTo : option (gmap string SendStatus)) : Story :=
  Story.mk (Some (Attachment.mk None d)) id None "c" None None (Some r) sentTo
           None None None ts "story".

Definition message (id : string) (body : string) (storyId : option string) : Message :=
  Message.mk id (Some body) "c" None None None 100 None (Some "uuid-1") storyId
             "incoming".

Definition store (l : list Story) : State := mkState false None l.

(** A story whose attachment is being downloaded. *)
Definition stillDownloading : Story := story "a" 5 Downloading Unread None.

(** Two stories in the order of their timestamps, and one that falls
    between them. *)
Definition early : Story := story "b" 3 NotDownloaded Unread None.
Definition late : Story := story "a" 5 Downloaded Unread None.
Definition between : Story := story "n" 4 NotDownloaded Unread None.
Definition pair : State := store [early; late].

(** [late] once its read status has changed. *)
Definition lateViewed : Story := story "a" 5 Downloaded Viewed None.

Definition threaded (parent : string) (replies : list Message) : State :=
  mkState true (Some (ReplyState.mk parent replies)) [].

(** A thread under story "a" with two replies, and an edit of the first. *)
Definition reply1 : Message := message "r1" "one" (Some "a").
Definition reply2 : Message := message "r2" "two" (Some "a").
Definition reply1Edited : Message := message "r1" "uno" (Some "a").
Definition reply3 : Message := message "r3" "three" (Some "a").
Definition thread : State := threaded "a" [reply1; reply2].

(** Collaborators that never fail: the message lookup answers [found], the
    reaction queue answers [enqueued], every conversation exists. *)
Definition world (found : option Message) (primary : bool) (enqueued : Exn + unit)
    : @Collaborators SendStatus unit :=
  mkCollaborators (λ _, inr found) 1700000000000 primary (λ _, inr ())
                  (λ _, enqueued) (λ cid, Some (Conversation.mk cid)).

(** Collaborators for a primary device on which nothing fails and no
    message is found. *)
Definition quiet : @Collaborators SendStatus unit := world None true (inr ()).

(** Story A, sent at 1000 to X and Y over one distribution list, and story B,
    sent at the same instant to Y over another. *)
Definition storyA : Story :=
  Story.mk None "A" None "c" None None None
           (Some {[ "X" := Sent; "Y" := Sent ]}) None None (Some "list-1") 1000
           "story".

Definition storyB : Story :=
  Story.mk None "B" None "c" None None None
           (Some {[ "Y" := Sent ]}) None None (Some "list-2") 1000 "story".

Definition viewA : StoryView.t :=
  StoryView.mk "A" 1000
    (Some [StorySendState.mk (Conversation.mk "X");
           StorySendState.mk (Conversation.mk "Y")]).

(** A message of ours that has been deleted for everyone. *)
Definition deletedMessage : Message :=
  Message.mk "m" (Some "hello") "me" (Some true) None None 100 None None None
             "outgoing".

(** Helpers under which a message is editable when nothing else forbids
    it. *)
Definition lenient : @EditHelpers SendStatus unit :=
  mkEditHelpers true (λ _, true) (λ _ _, true) (λ _ _, true) (λ _, true) (Some "me").

End Sample.

(** ** The remaining thunks of the duck *)

(** A run that leaves entries of type [E]: the trace and the completion. *)
Definition Run (E A : Type) : Type := (list E * (Exn + A))%type.

#[global] Instance Run_ret {E} : MRet (Run E) := λ A a, ([], inr a).

#[global] Instance Run_bind {E} : MBind (Run E) := λ A B k m,
  match m with
  | (t, inl e) => (t, inl e)
  | (t, inr a) => let '(t', r) := k a in (t ++ t', r)
  end.

Definition note {E} (e : E) : Run E unit := ([e], inr ()).

Definition settle {E A} (settled : Exn + A) : Run E A := ([], settled).

Section MoreThunks.
Context {Rest Reaction SendState Edit Mention : Type}.
Context `{!EqDecision SendState} `{!AttachmentHelpers Rest}.

Local Abbreviation Story := (Story.t Rest Reaction SendState).
Local Abbreviation Message := (Message.t SendState Edit).
Local Abbreviation State := (@StoriesStateType Rest Reaction SendState Edit).
Local Abbreviation Action := (@StoriesActionType Rest Reaction SendState Edit).

(** The calls of [queueStoryDownload], [loadStoryReplies] and
    [replyToStory] that reach outside the thunk. *)
Inductive Step :=
| WarnNoAttachment (text : string) (storyId : string)
| ErrorNoConversation (text : string) (conversationId : string)
| ClearStoryReplyContext (message : Message)
| QueueAttachmentDownloads (attributes : Message)
| GetOlderMessagesByConversation (conversationId : string) (limit : Z)
    (storyId : string) (isGroup : bool)
| EnqueueMessageForSend (conversation : Conversation.t) (body : string)
    (mentions : list Mention) (storyId : string) (timestamp : Z)
| Dispatched (action : Action).

(** What these thunks are answered, besides [Collaborators]: the helper
    [hasNotResolved] and the field [path] of the attachment, the absolute
    path of [window.Signal.Migrations], the download queue, whether the
    selected conversation is a group, the query for older messages and the
    send queue of a conversation. *)
Record Services := mkServices {
  hasNotResolved : option (Attachment.t Rest) → bool;
  attachmentPath : Attachment.t Rest → option string;
  getAbsoluteAttachmentPath : string → string;
  queueAttachmentDownloads : Message → Exn + unit;
  isGroupConversation : string → bool;
  getOlderMessagesByConversation : string → Z → string → bool → Exn + list Message;
  enqueueMessageForSend :
    Conversation.t → string → list Mention → string → Z → Exn + option Message
}.

(** The actions among the entries of a trace. *)
Definition dispatchedSteps (t : list Step) : list Action :=
  omap (λ e, match e with Dispatched a => Some a | _ => None end) t.

(** [queueStoryDownload] *)
Definition queueStoryDownload (world : @Collaborators SendState Edit) (more : Services)
    (storyId : string) (state : State) : Run Step unit :=
  match find (λ item : Story, Story.messageId item = storyId) (stories state) with
  | None => mret ()
  | Some story =>
      match Story.attachment story with
      | None =>
          note (WarnNoAttachment "queueStoryDownload: No attachment found for story"
                                 storyId)
      | Some attachment =>
          if isDownloaded (Some attachment) then
            match attachmentPath more attachment with
            | None | Some EmptyString => mret ()
            | Some path =>
                if hasNotResolved more (Some attachment)
                then note (Dispatched
                             (RESOLVE_ATTACHMENT_URL storyId
                                (getAbsoluteAttachmentPath more path)))
                else mret ()
            end
          else if isDownloading (Some attachment) then mret ()
          else
            message ← settle (getMessageById world storyId);
            match message with
            | Some message =>
                note (ClearStoryReplyContext message) ;;
                note (QueueAttachmentDownloads message) ;;
                settle (queueAttachmentDownloads more message)
            | None => mret ()
            end ;;
            note (Dispatched NOOP)
      end
  end.

(** [loadStoryReplies] *)
Definition loadStoryReplies (more : Services) (conversationId messageId : string)
    : Run Step unit :=
  let isGroup := isGroupConversation more conversationId in
  note (GetOlderMessagesByConversation conversationId 9000 messageId isGroup) ;;
  replies ← settle (getOlderMessagesByConversation more conversationId 9000
                      messageId isGroup);
  note (Dispatched (LOAD_STORY_REPLIES messageId replies)).

(** [replyToStory] *)
Definition replyToStory (world : @Collaborators SendState Edit) (more : Services)
    (conversationId messageBody : string) (mentions : list Mention) (timestamp : Z)
    (story : StoryView.t) : Run Step unit :=
  match ConversationController_get world conversationId with
  | None =>
      note (ErrorNoConversation "replyToStory: conversation does not exist"
                                conversationId)
  | Some conversation =>
      note (EnqueueMessageForSend conversation messageBody mentions
              (StoryView.messageId story) timestamp) ;;
      messageAttributes ←
        settle (enqueueMessageForSend more conversation messageBody mentions
                  (StoryView.messageId story) timestamp);
      match messageAttributes with
      | Some messageAttributes => note (Dispatched (REPLY_TO_STORY messageAttributes))
      | None => mret ()
      end
  end.

(** The replies of the thread after [MESSAGE_CHANGED], when the delta is for
    the story of the thread: the two [return]s of that branch. *)
Definition observedReplies (id : string) (data : Message) (replies : list Message)
    : list Message :=
  match findIndex (λ reply : Message, Message.id reply = id) replies with
  | None => replies ++ [data]
  | Some messageIndex => replaceIndex replies messageIndex data
  end.

(** The store after the actions of a trace have been reduced, in order. *)
Definition reduceAll (state : State) (actions : list Action) : State :=
  foldl nextState state actions.
End MoreThunks.

(** ** The stories panel *)

(** [ConversationStoryType], restricted to the fields the panel reads. *)
Module ConversationStory.
Record t {V : Type} := mk { conversationId : string; stories : list V }.
Arguments t : clear implicits.
Arguments mk {V}.
End ConversationStory.

Section StoriesPanel.
Context {V : Type}.

(** The field [isUnread] of a story view. *)
Variable isUnread : V → option bool.

Local Abbreviation ConversationStoryType := (ConversationStory.t V).

(** [conversationStory.stories.some(story => story.isUnread)] *)
Definition someUnread (conversationStory : ConversationStoryType) : Prop :=
  Exists (λ story, truthy (isUnread story) = true)
         (ConversationStory.stories conversationStory).

#[global] Instance someUnread_dec conversationStory : Decision (someUnread conversationStory).
Proof. unfold someUnread. apply _. Defined.

(** [onNextUserStories]: what it hands to [setConversationIdToView], given
    the conversations shown and the conversation in view; the calls of
    [log.info] are left out.  The entry read at [storyIndex + 1] is there
    whenever the index is not the last one. *)
Definition onNextUserStories (stories : list ConversationStoryType)
    (conversationIdToView : option string) : option string :=
  match list_find someUnread stories with
  | Some (nextUnreadIndex, nextStory) =>
      Some (ConversationStory.conversationId nextStory)
  | None =>
      match findIndex (λ x, Some (ConversationStory.conversationId x) = conversationIdToView)
                      stories with
      | None => None
      | Some storyIndex =>
          if decide (length stories - 1 ≤ storyIndex) then None
          else ConversationStory.conversationId <$> stories !! (storyIndex + 1)
      end
  end.

(** [onPrevUserStories]: what it hands to [setConversationIdToView]; the
    call of [log.info] is left out. *)
Definition onPrevUserStories (stories : list ConversationStoryType)
    (conversationIdToView : option string) : option string :=
  match findIndex (λ x, Some (ConversationStory.conversationId x) = conversationIdToView)
                  stories with
  | None | Some 0 => conversationIdToView
  | Some (S before) => ConversationStory.conversationId <$> stories !! before
  end.
End StoriesPanel.

(** ** The media gallery *)

(** [MediaItemType], restricted to the fields the grid item and the section
    read; the message and the attachment are carried as they are. *)
Module MediaItem.
Record t {M A : Type} := mk {
  message : M;
  index : nat;
  attachment : option A;
  contentType : option string;
  thumbnailObjectUrl : option string
}.
Arguments t : clear implicits.
Arguments mk {M A}.
End MediaItem.

(** The state of a [MediaGridItem]. *)
Module GridState.
Record t := mk { imageBroken : bool; clickedThing : bool }.
End GridState.

(** What [renderContent] returns, by its branches. *)
Inductive GridContent :=
| Nothing
| ImageIcon
| ImageThumbnail (src : string) (checkmarkShown : bool)
| VideoIcon
| VideoThumbnail (src : string)
| GenericIcon.

Section MediaGrid.
Context {M A : Type}.

(** [isImageTypeSupported] and [isVideoTypeSupported] of util/GoogleChrome. *)
Variables isImageTypeSupported isVideoTypeSupported : string → bool.

(** [new MediaGridItem(props).state] *)
Definition initialGridState : GridState.t := GridState.mk false false.

(** [onImageError] *)
Definition onImageError (state : GridState.t) : GridState.t :=
  GridState.mk true (GridState.clickedThing state).

(** [contentType && isSupported(contentType)] *)
Definition supportedType (isSupported : string → bool) (contentType : option string) : bool :=
  match contentType with
  | None | Some EmptyString => false
  | Some contentType => isSupported contentType
  end.

(** [renderContent] *)
Definition renderContent (mediaItem : MediaItem.t M A) (state : GridState.t) : GridContent :=
  match MediaItem.attachment mediaItem with
  | None => Nothing
  | Some _ =>
      if supportedType isImageTypeSupported (MediaItem.contentType mediaItem) then
        match GridState.imageBroken state, MediaItem.thumbnailObjectUrl mediaItem with
        | false, Some (String c rest) =>
            ImageThumbnail (String c rest) (GridState.clickedThing state)
        | _, _ => ImageIcon
        end
      else if supportedType isVideoTypeSupported (MediaItem.contentType mediaItem) then
        match GridState.imageBroken state, MediaItem.thumbnailObjectUrl mediaItem with
        | false, Some (String c rest) => VideoThumbnail (String c rest)
        | _, _ => VideoIcon
        end
      else GenericIcon
  end.

(** The click handler of [render]: whether [onClick] was called, and the
    state afterwards. *)
Definition onButtonClick (onClick : bool) (checkmark : bool) (state : GridState.t)
    : bool * GridState.t :=
  if onClick then (true, state)
  else if checkmark
       then (false, GridState.mk (GridState.imageBroken state)
                                 (negb (GridState.clickedThing state)))
       else (false, state).
End MediaGrid.

(** ** More concrete values, for the examples *)

Module Scenario.

(** Services that never fail: an attachment is unresolved while it has no
    URL, a downloaded attachment lies at "attachments/a.jpg", the query for
    older messages answers the two replies of [Sample.thread], and the send
    queue answers a message with the body it was given. *)
Definition services : @Services Sample.DownloadState Sample.SendStatus unit unit :=
  mkServices
    (λ a, match a with Some (Attachment.mk None _) => true | _ => false end)
    (λ a, match Attachment.rest a with
          | Sample.Downloaded => Some "attachments/a.jpg"
          | _ => None
          end)
    (λ path, "/home/signal/" +:+ path)
    (λ _, inr ())
    (λ _, false)
    (λ _ _ _ _, inr [Sample.reply1; Sample.reply2])
    (λ _ body _ storyId _, inr (Some (Sample.message "sent" body (Some storyId)))).

(** The steps and runs of the thunks at the types of [Sample]. *)
Definition StepType : Type :=
  @Step Sample.DownloadState unit Sample.SendStatus unit unit.

Definition queueStoryDownloadOf (storyId : string) (state : Sample.State)
    : Run StepType unit :=
  queueStoryDownload Sample.quiet services storyId state.

Definition replyToStoryOf (conversationId body : string) : Run StepType unit :=
  replyToStory Sample.quiet services conversationId body [] 2000 Sample.viewA.

(** A story view of [Sample.late], which is in [Sample.pair]. *)
Definition viewLate : StoryView.t :=
  StoryView.mk "a" 5 (Some [StorySendState.mk (Conversation.mk "X")]).

(** A collaborator record that knows no conversation. *)
Definition lonely : @Collaborators Sample.SendStatus unit :=
  mkCollaborators (λ _, inr None) 1700000000000 true (λ _, inr ())
                  (λ _, inr ()) (λ _, None).

(** Collaborators whose store of story reads rejects every write, on a
    device that is not the primary one. *)
Definition diskFull : @Collaborators Sample.SendStatus unit :=
  mkCollaborators (λ _, inr (Some Sample.reply1)) 1700000000000 false
                  (λ _, inl (JsError "disk full")) (λ _, inr ())
                  (λ cid, Some (Conversation.mk cid)).

(** An old outgoing message in our own conversation, edited eleven times
    and never sent; helpers that say so. *)
Definition noteToSelf : Sample.Message :=
  Message.mk "n" (Some "remember") "me" None (Some (replicate 11 ())) None 1 None
             None None "outgoing".

Definition strict : @EditHelpers Sample.SendStatus unit :=
  mkEditHelpers true (λ _, true) (λ _ _, false) (λ _ _, false) (λ _, false) (Some "me").

(** Three conversations of the panel with nothing unread, and two of which
    the second has an unread story; a story view is known here by its
    [isUnread] alone. *)
Definition allRead : list (ConversationStory.t (option bool)) :=
  [ConversationStory.mk "c1" [Some false];
   ConversationStory.mk "c2" [None; Some false];
   ConversationStory.mk "c3" [Some false]].

Definition oneUnread : list (ConversationStory.t (option bool)) :=
  [ConversationStory.mk "c1" [Some false];
   ConversationStory.mk "c2" [Some false; Some true]].

End Scenario.

(** * Properties of the reducer *)

Section DuckProperties.
Context {Rest Reaction SendState Edit : Type}.
Context `{!EqDecision SendState} `{!AttachmentHelpers Rest}.

Local Abbreviation Story := (Story.t Rest Reaction SendState).
Local Abbreviation Message := (Message.t SendState Edit).
Local Abbreviation State := (@StoriesStateType Rest Reaction SendState Edit).
Local Abbreviation Action := (@StoriesActionType Rest Reaction SendState Edit).
Local Abbreviation reactToStoryHere := (@reactToStory Rest Reaction SendState Edit).

Implicit Types (state next : State) (action : Action) (l : list Story).
Implicit Types (story payload : Story) (id : string).

(** *** Looking a story up by its id *)

Lemma list_find_firstWithId id l i story :
  list_find (λ existing : Story, Story.messageId existing = id) l = Some (i, story)
  ↔ firstWithId id l i story.
Proof. unfold firstWithId. rewrite list_find_Some. reflexivity. Qed.

Lemma list_find_absent id l :
  list_find (λ existing : Story, Story.messageId existing = id) l = None
  ↔ id ∉ Story.messageId <$> l.
Proof.
  rewrite list_find_None, Forall_forall, list_elem_of_fmap. split.
  - intros Hall (story & -> & Hin). exact (Hall story Hin eq_refl).
  - intros Hnot story Hin Heq. apply Hnot. exists story. auto.
Qed.

Lemma list_find_present id l :
  id ∈ Story.messageId <$> l →
  ∃ i story, list_find (λ existing : Story, Story.messageId existing = id) l
             = Some (i, story).
Proof.
  intros Hin.
  destruct (list_find (λ existing : Story, Story.messageId existing = id) l)
    as [[i story]|] eqn:Hfind; [eauto|].
  apply list_find_absent in Hfind. contradiction.
Qed.

Lemma firstWithId_lt id l i story : firstWithId id l i story → i < length l.
Proof. intros (Hi & _). eapply lookup_lt_Some, Hi. Qed.

(** Replacing an entry by one with the same id leaves the ids as they
    were. *)
Lemma messageIds_replaceIndex l i story story' :
  l !! i = Some story →
  Story.messageId story' = Story.messageId story →
  Story.messageId <$> replaceIndex l i story' = Story.messageId <$> l.
Proof.
  intros Hi Hid. unfold replaceIndex.
  rewrite list_fmap_insert, Hid. apply list_insert_id.
  rewrite list_lookup_fmap, Hi. reflexivity.
Qed.

(** In place: the entry at the index is the new one, the length and every
    other entry are as before. *)
Lemma replaceIndex_in_place {A} (arr : list A) i (old new : A) :
  arr !! i = Some old →
  replaceIndex arr i new = take i arr ++ new :: drop (S i) arr
  ∧ replaceIndex arr i new !! i = Some new
  ∧ length (replaceIndex arr i new) = length arr
  ∧ ∀ j, j ≠ i → replaceIndex arr i new !! j = arr !! j.
Proof.
  intros Hi. pose proof (lookup_lt_Some _ _ _ Hi) as Hlt. unfold replaceIndex.
  repeat split.
  - apply insert_take_drop, Hlt.
  - apply list_lookup_insert_eq, Hlt.
  - apply length_insert.
  - intros j Hj. apply list_lookup_insert_ne. congruence.
Qed.

(** *** Removing a message *)

Lemma filter_absent id l :
  id ∉ Story.messageId <$> l →
  filter (λ story : Story, Story.messageId story ≠ id) l = l.
Proof.
  induction l as [|x l IH]; intros Hnot; [reflexivity|].
  rewrite fmap_cons, not_elem_of_cons in Hnot. destruct Hnot as [Hx Hl].
  rewrite filter_cons_True by congruence. f_equal. auto.
Qed.

Lemma filter_unique id l :
  id ∈ Story.messageId <$> l →
  NoDup (Story.messageId <$> l) →
  ∃ before removed after,
    l = before ++ removed :: after
    ∧ Story.messageId removed = id
    ∧ filter (λ story : Story, Story.messageId story ≠ id) l = before ++ after.
Proof.
  intros Hin Hdup.
  apply list_elem_of_fmap in Hin as (removed & -> & Hin).
  apply list_elem_of_split in Hin as (before & after & ->).
  exists before, removed, after. split; [reflexivity|]. split; [reflexivity|].
  rewrite fmap_app, fmap_cons in Hdup.
  apply NoDup_app in Hdup as (_ & Hcross & Hdup).
  apply NoDup_cons in Hdup as (Hafter & _).
  rewrite filter_app, filter_cons_False by (intros Hne; apply Hne; reflexivity).
  rewrite !filter_absent; [reflexivity|exact Hafter|].
  intros Hb. apply (Hcross _ Hb). left.
Qed.

(** C8. [MESSAGE_DELETED] for an id that no story carries hands back the
    state it was given; for an id that is present the new state holds the
    stories whose id differs, in their old order, and, the ids being unique
    (the invariant of the store), that is the old list with exactly one
    element taken out. *)
Theorem message_deleted_removes_one state id conversationId :
  (id ∉ messageIds state →
   reducer state (MESSAGE_DELETED id conversationId) = Identical)
  ∧ (id ∈ messageIds state →
     ∃ next,
       reducer state (MESSAGE_DELETED id conversationId) = Updated next
       ∧ isShowingStoriesView next = isShowingStoriesView state
       ∧ replyState next = replyState state
       ∧ stories next
         = filter (λ story : Story, Story.messageId story ≠ id) (stories state)
       ∧ (uniqueMessageIds state →
          length (stories next) + 1 = length (stories state)
          ∧ ∃ before removed after,
              stories state = before ++ removed :: after
              ∧ Story.messageId removed = id
              ∧ stories next = before ++ after)).
Proof.
  unfold messageIds, uniqueMessageIds. split; intros Hid.
  - unfold reducer. rewrite filter_absent by exact Hid.
    rewrite decide_True; reflexivity.
  - exists (withStories state
              (filter (λ story : Story, Story.messageId story ≠ id) (stories state))).
    split; [|split; [reflexivity|split; [reflexivity|split; [reflexivity|]]]].
    + unfold reducer. rewrite decide_False; [reflexivity|].
      apply list_elem_of_fmap in Hid as (story & -> & Hin).
      pose proof (length_filter_lt
                    (λ s : Story, Story.messageId s ≠ Story.messageId story)
                    (stories state) story Hin) as Hlt.
      intros Hlen. rewrite Hlen in Hlt.
      eapply Nat.lt_irrefl, Hlt. tauto.
    + intros Hunique.
      destruct (filter_unique id (stories state) Hid Hunique)
        as (before & removed & after & Hsplit & Hrem & Hfilter).
      split; [|exists before, removed, after; auto].
      simpl. rewrite Hfilter, Hsplit, !length_app. simpl. lia.
Qed.
(** *** Adding a story *)

Lemma keptInFront_byTimestamp (a b : Story) :
  keptInFront byTimestamp a b ↔ (Story.timestamp a ≤ Story.timestamp b)%Z.
Proof.
  unfold keptInFront, byTimestamp. case_bool_decide; split; intros; lia.
Qed.

#[local] Instance byTimestamp_total : Total (keptInFront (@byTimestamp Rest Reaction SendState)).
Proof.
  intros a b. rewrite !keptInFront_byTimestamp. lia.
Qed.

#[local] Instance byTimestamp_transitive :
  Transitive (keptInFront (@byTimestamp Rest Reaction SendState)).
Proof.
  intros a b c. rewrite !keptInFront_byTimestamp. lia.
Qed.

Lemma sort_byTimestamp_ascending l : ascendingByTimestamp (sort byTimestamp l).
Proof.
  unfold ascendingByTimestamp, sort.
  pose proof (StronglySorted_merge_sort (keptInFront byTimestamp) l) as Hsorted.
  induction Hsorted as [|a rest _ IH Hall]; constructor; [exact IH|].
  eapply Forall_impl; [exact Hall|].
  intros b Hb. apply keptInFront_byTimestamp, Hb.
Qed.

Lemma sort_Permutation {A} (compareFn : A → A → Z) (arr : list A) :
  sort compareFn arr ≡ₚ arr.
Proof. apply merge_sort_Permutation. Qed.

Lemma story_changed_new state payload :
  Story.messageId payload ∉ messageIds state →
  reducer state (STORY_CHANGED payload)
  = Updated (withStories state (sort byTimestamp (stories state ++ [payload]))).
Proof.
  intros Hnew. unfold reducer.
  apply list_find_absent in Hnew. rewrite Hnew. reflexivity.
Qed.

(** C3. A [STORY_CHANGED] whose id no story of the list carries yields a
    state whose stories are the old ones and the new one, ascending by
    timestamp. *)
Theorem story_added_sorted state payload :
  Story.messageId payload ∉ messageIds state →
  ∃ next,
    reducer state (STORY_CHANGED payload) = Updated next
    ∧ ascendingByTimestamp (stories next)
    ∧ stories next ≡ₚ stories state ++ [payload].
Proof.
  intros Hnew. eexists. split; [apply story_changed_new, Hnew|].
  split; [apply sort_byTimestamp_ascending | apply sort_Permutation].
Qed.

(** *** The ids stay unique *)

Lemma story_changed_found state payload i prevStory :
  firstWithId (Story.messageId payload) (stories state) i prevStory →
  reducer state (STORY_CHANGED payload)
  = if shouldReplace prevStory payload
    then Updated (withStories state (replaceIndex (stories state) i payload))
    else Identical.
Proof.
  intros Hfirst. apply list_find_firstWithId in Hfirst.
  unfold reducer. rewrite Hfirst. destruct (shouldReplace prevStory payload); reflexivity.
Qed.

(** C4. Whatever the action, a state in which no two stories share a
    [messageId] is taken to a state in which no two stories share one. *)
Theorem reducer_keeps_ids_unique state action :
  uniqueMessageIds state → uniqueMessageIds (nextState state action).
Proof.
  unfold uniqueMessageIds, messageIds, nextState. intros Hunique.
  destruct action as [payload|mid replies|payload|id cid data|id cid|payload
                     |mid url|payload| |]; unfold reducer.
  - (* DOE_STORY *)
    destruct (list_find _ _) as [[i prevStory]|] eqn:Hfind; [|exact Hunique].
    apply list_find_firstWithId in Hfind as (Hi & _). simpl.
    erewrite messageIds_replaceIndex; [exact Hunique|exact Hi|reflexivity].
  - exact Hunique.
  - (* MARK_STORY_READ *)
    simpl. rewrite <- list_fmap_compose.
    erewrite list_fmap_ext; [exact Hunique|].
    intros j story _. unfold compose.
    destruct (decide (Story.messageId story = payload)); reflexivity.
  - (* MESSAGE_CHANGED *)
    destruct (replyState state) as [thread|]; [|exact Hunique].
    case_decide; [|exact Hunique].
    destruct (findIndex _ _); exact Hunique.
  - (* MESSAGE_DELETED *)
    case_decide; [exact Hunique|]. simpl.
    refine (sublist_NoDup _ _ Hunique _).
    apply fmap_sublist, sublist_filter.
  - destruct (replyState state); exact Hunique.
  - (* RESOLVE_ATTACHMENT_URL *)
    destruct (list_find _ _) as [[i story]|] eqn:Hfind; [|exact Hunique].
    destruct (Story.attachment story) as [a|]; [|exact Hunique].
    apply list_find_firstWithId in Hfind as (Hi & _). simpl.
    erewrite messageIds_replaceIndex; [exact Hunique|exact Hi|reflexivity].
  - (* STORY_CHANGED *)
    destruct (list_find _ _) as [[i prevStory]|] eqn:Hfind.
    + apply list_find_firstWithId in Hfind as (Hi & Hid & _).
      destruct (shouldReplace prevStory payload); [|exact Hunique]. simpl.
      erewrite messageIds_replaceIndex; [exact Hunique|exact Hi|].
      symmetry. exact Hid.
    + apply list_find_absent in Hfind. simpl.
      rewrite sort_Permutation, fmap_app. simpl.
      apply NoDup_app. split; [exact Hunique|]. split; [|apply NoDup_singleton].
      intros x Hx Hx'. apply list_elem_of_singleton in Hx'. subst x. contradiction.
  - exact Hunique.
  - exact Hunique.
Qed.
(** *** Changing a story that is already listed *)

Lemma shouldReplace_spec (prevStory payload : Story) :
  shouldReplace prevStory payload = true ↔ replacementCalledFor prevStory payload.
Proof.
  unfold shouldReplace, replacementCalledFor, isDownloadingAttachment,
    hasAttachmentDownloaded, hasBeenDeleted, hasSendStateChanged,
    readStatusChanged, reactionsChanged.
  rewrite !orb_true_iff, !andb_true_iff, !negb_true_iff, !bool_decide_eq_false.
  tauto.
Qed.

(** C1, as the code has it. A [STORY_CHANGED] whose id is already listed
    meets the first story with that id; the reducer hands back the state it
    was given exactly when no replacement is called for, and otherwise puts
    the payload in that story's place, everything else as it was.  A
    replacement is called for when the incoming attachment is downloading
    (whatever the stored one was doing), or the attachment went from not
    downloaded to downloaded, or the deletion flag went from false to true,
    or the send states differ, or the read status differs, or the number of
    reactions differs. *)
Theorem story_changed_listed state payload :
  Story.messageId payload ∈ messageIds state →
  ∃ i prevStory,
    firstWithId (Story.messageId payload) (stories state) i prevStory
    ∧ (reducer state (STORY_CHANGED payload) = Identical
       ↔ ¬ replacementCalledFor prevStory payload)
    ∧ (replacementCalledFor prevStory payload →
       reducer state (STORY_CHANGED payload)
       = Updated (mkState (isShowingStoriesView state) (replyState state)
                    (take i (stories state) ++ payload :: drop (S i) (stories state)))).
Proof.
  intros Hin. apply list_find_present in Hin as (i & prevStory & Hfind).
  apply list_find_firstWithId in Hfind. exists i, prevStory.
  split; [exact Hfind|].
  rewrite (story_changed_found _ _ _ _ Hfind), <- shouldReplace_spec.
  destruct Hfind as (Hi & _).
  destruct (replaceIndex_in_place (stories state) i prevStory payload Hi) as (-> & _).
  destruct (shouldReplace prevStory payload); split.
  - split; [discriminate|]. intros Hnot. destruct Hnot. reflexivity.
  - reflexivity.
  - split; [discriminate|reflexivity].
  - discriminate.
Qed.

(** *** A reply is observed *)

Lemma findIndex_None {A} (P : A → Prop) `{∀ x, Decision (P x)} (arr : list A) :
  findIndex P arr = None ↔ Forall (λ x, ¬ P x) arr.
Proof.
  unfold findIndex. rewrite fmap_None. apply list_find_None.
Qed.

Lemma findIndex_Some {A} (P : A → Prop) `{∀ x, Decision (P x)} (arr : list A) i :
  findIndex P arr = Some i
  ↔ ∃ x, arr !! i = Some x ∧ P x ∧ ∀ j y, arr !! j = Some y → j < i → ¬ P y.
Proof.
  unfold findIndex. rewrite fmap_Some. split.
  - intros ([j x] & Hfind & ->). apply list_find_Some in Hfind. eauto.
  - intros (x & Hx). exists (i, x). split; [|reflexivity].
    apply list_find_Some, Hx.
Qed.

(** C6. [MESSAGE_CHANGED] with no reply thread, or with a thread for another
    story than the one the message replies to, hands back the state it was
    given.  With the thread of that story: if no reply of the thread has
    the id of the delta, the data goes to the end of the replies; if one
    has, the data takes the place of the first such reply, at its index.
    The rest of the state stays as it was. *)
Theorem reply_observed state id conversationId (data : Message) :
  (replyState state = None →
   reducer state (MESSAGE_CHANGED id conversationId data) = Identical)
  ∧ ∀ thread, replyState state = Some thread →
      (Some (ReplyState.messageId thread) ≠ Message.storyId data →
       reducer state (MESSAGE_CHANGED id conversationId data) = Identical)
      ∧ (Some (ReplyState.messageId thread) = Message.storyId data →
         (id ∉ Message.id <$> ReplyState.replies thread →
          reducer state (MESSAGE_CHANGED id conversationId data)
          = Updated (mkState (isShowingStoriesView state)
                       (Some (ReplyState.mk (ReplyState.messageId thread)
                                (ReplyState.replies thread ++ [data])))
                       (stories state)))
         ∧ (id ∈ Message.id <$> ReplyState.replies thread →
            ∃ i old,
              ReplyState.replies thread !! i = Some old
              ∧ Message.id old = id
              ∧ (∀ j reply, ReplyState.replies thread !! j = Some reply →
                            j < i → Message.id reply ≠ id)
              ∧ reducer state (MESSAGE_CHANGED id conversationId data)
                = Updated (mkState (isShowingStoriesView state)
                             (Some (ReplyState.mk (ReplyState.messageId thread)
                                      (take i (ReplyState.replies thread)
                                       ++ data :: drop (S i) (ReplyState.replies thread))))
                             (stories state)))).
Proof.
  split; [intros Hnone; unfold reducer; rewrite Hnone; reflexivity|].
  intros thread Hthread. unfold reducer. rewrite Hthread. split.
  - intros Hother. rewrite decide_False by exact Hother. reflexivity.
  - intros Hsame. rewrite decide_True by exact Hsame. split.
    + intros Hnew.
      assert (findIndex (λ reply : Message, Message.id reply = id)
                (ReplyState.replies thread) = None) as ->; [|reflexivity].
      apply findIndex_None, Forall_forall. intros reply Hin Hid.
      apply Hnew, list_elem_of_fmap. exists reply. auto.
    + intros Hold.
      destruct (findIndex (λ reply : Message, Message.id reply = id)
                  (ReplyState.replies thread)) as [i|] eqn:Hfind.
      * apply findIndex_Some in Hfind as (old & Hi & Hid & Hfirst).
        exists i, old. repeat split; try assumption.
        destruct (replaceIndex_in_place _ i old data Hi) as (-> & _).
        reflexivity.
      * exfalso. rewrite findIndex_None, Forall_forall in Hfind.
        apply list_elem_of_fmap in Hold as (reply & -> & Hin).
        exact (Hfind reply Hin eq_refl).
Qed.

(** *** The URL of an attachment is resolved *)

(** C7. [RESOLVE_ATTACHMENT_URL] hands back the state it was given when no
    story has the id, or when the first story with the id has no
    attachment.  Otherwise the story at that index gets the URL in its
    attachment, the rest of the attachment, every other field of the story,
    every other story and the rest of the state staying as they were. *)
Theorem attachment_url_resolved state id attachmentUrl :
  (id ∉ messageIds state →
   reducer state (RESOLVE_ATTACHMENT_URL id attachmentUrl) = Identical)
  ∧ ∀ i story, firstWithId id (stories state) i story →
      (Story.attachment story = None →
       reducer state (RESOLVE_ATTACHMENT_URL id attachmentUrl) = Identical)
      ∧ ∀ attachment, Story.attachment story = Some attachment →
          ∃ next resolved,
            reducer state (RESOLVE_ATTACHMENT_URL id attachmentUrl) = Updated next
            ∧ isShowingStoriesView next = isShowingStoriesView state
            ∧ replyState next = replyState state
            ∧ length (stories next) = length (stories state)
            ∧ stories next !! i = Some resolved
            ∧ (∀ j, j ≠ i → stories next !! j = stories state !! j)
            ∧ Story.attachment resolved
              = Some (Attachment.mk (Some attachmentUrl) (Attachment.rest attachment))
            ∧ Story.messageId resolved = Story.messageId story
            ∧ Story.canReplyToStory resolved = Story.canReplyToStory story
            ∧ Story.conversationId resolved = Story.conversationId story
            ∧ Story.deletedForEveryone resolved = Story.deletedForEveryone story
            ∧ Story.reactions resolved = Story.reactions story
            ∧ Story.readStatus resolved = Story.readStatus story
            ∧ Story.sendStateByConversationId resolved
              = Story.sendStateByConversationId story
            ∧ Story.source resolved = Story.source story
            ∧ Story.sourceUuid resolved = Story.sourceUuid story
            ∧ Story.storyDistributionListId resolved
              = Story.storyDistributionListId story
            ∧ Story.timestamp resolved = Story.timestamp story
            ∧ Story.type resolved = Story.type story.
Proof.
  split.
  - intros Habsent. apply list_find_absent in Habsent.
    unfold reducer. rewrite Habsent. reflexivity.
  - intros i story Hfirst. pose proof Hfirst as (Hi & _).
    apply list_find_firstWithId in Hfirst.
    unfold reducer. rewrite Hfirst. split.
    + intros ->. reflexivity.
    + intros attachment ->.
      destruct (replaceIndex_in_place (stories state) i story
                  (Story.with_attachment
                     (Attachment.mk (Some attachmentUrl) (Attachment.rest attachment))
                     story) Hi) as (_ & Hat & Hlen & Hother).
      eexists _, _. split; [reflexivity|].
      split; [reflexivity|]. split; [reflexivity|].
      split; [exact Hlen|]. split; [exact Hat|]. split; [exact Hother|].
      repeat split.
Qed.
(** *** Thunks *)

Implicit Types (world : @Collaborators SendState Edit).

Lemma find_absent id l :
  id ∉ Story.messageId <$> l →
  find (λ story : Story, Story.messageId story = id) l = None.
Proof.
  intros Habsent. apply list_find_absent in Habsent.
  unfold find. rewrite Habsent. reflexivity.
Qed.

Lemma find_first id l i story :
  firstWithId id l i story →
  find (λ story : Story, Story.messageId story = id) l = Some story.
Proof.
  intros Hfirst. apply list_find_firstWithId in Hfirst.
  unfold find. rewrite Hfirst. reflexivity.
Qed.

(** C5, as the code has it. [markStoryRead] dispatches nothing and calls no
    collaborator when no story has the id (it logs a warning then), when the
    first story with the id has an attachment that is not downloaded, when
    its read status is not [Unread], or when the message lookup finds no
    message.  When the story is there, downloaded and unread, the lookup
    yields a message and the read is persisted, the thunk marks the message
    viewed, queues a view sync unless this is the primary device, queues
    the viewed receipt, persists the read and then dispatches
    [MARK_STORY_READ], in this order. *)
Theorem markStoryRead_guarded world messageId state :
  (messageId ∉ messageIds state →
   markStoryRead world messageId state
   = ([LogWarn ("markStoryRead: no matching story found: " +:+ messageId)], inr ()))
  ∧ ∀ i story, firstWithId messageId (stories state) i story →
      (isDownloaded (Story.attachment story) = false ∨ Story.readStatus story ≠ Some Unread →
       markStoryRead world messageId state = ([], inr ()))
      ∧ (isDownloaded (Story.attachment story) = true →
         Story.readStatus story = Some Unread →
         (getMessageById world messageId = inr None →
          markStoryRead world messageId state = ([], inr ()))
         ∧ ∀ message, getMessageById world messageId = inr (Some message) →
             addNewStoryRead world
               (StoryRead.mk (Message.sourceUuid message) (Message.conversationId message)
                             messageId (Date_now world)) = inr () →
             markStoryRead world messageId state
             = ([MarkViewed message (Date_now world)]
                ++ (if areWePrimaryDevice world then []
                    else [ViewSyncJobQueueAdd
                            [Sync.mk messageId (Message.source message)
                                     (Message.sourceUuid message)
                                     (Message.sent_at message)]])
                ++ [ViewedReceiptsJobQueueAdd
                      (Sync.mk messageId (Message.source message)
                               (Message.sourceUuid message) (Message.sent_at message));
                    AddNewStoryRead
                      (StoryRead.mk (Message.sourceUuid message)
                                    (Message.conversationId message) messageId
                                    (Date_now world));
                    Dispatch (MARK_STORY_READ messageId)],
                inr ())).
Proof.
  split.
  - intros Habsent. unfold markStoryRead, messageIds in *.
    rewrite find_absent by exact Habsent. reflexivity.
  - intros i story Hfirst. unfold markStoryRead.
    rewrite (find_first _ _ _ _ Hfirst). split.
    + intros [Hnot|Hread].
      * rewrite Hnot. reflexivity.
      * destruct (isDownloaded (Story.attachment story)); [|reflexivity].
        rewrite bool_decide_eq_false_2 by exact Hread. reflexivity.
    + intros Hdown Hunread. rewrite Hdown, Hunread.
      rewrite bool_decide_eq_true_2 by reflexivity. cbn [negb]. split.
      * intros Hlookup. rewrite Hlookup. reflexivity.
      * intros message Hlookup Hpersist. rewrite Hlookup.
        cbn. rewrite Hpersist.
        destruct (areWePrimaryDevice world); reflexivity.
Qed.

(** C9. Whatever [enqueueReactionForSend] does, [reactToStory] completes
    without throwing and dispatches [NOOP] exactly once, as its last step;
    when the enqueue rejects, the error is logged and the toast shown
    before that. *)
Theorem reactToStory_contains_failure world nextReaction messageId :
  completion (reactToStoryHere world nextReaction messageId) = inr ()
  ∧ dispatched (trace (reactToStoryHere world nextReaction messageId)) = [NOOP]
  ∧ trace (reactToStoryHere world nextReaction messageId)
    = match enqueueReactionForSend world
              (ReactionForSend.mk messageId nextReaction false) with
      | inr _ =>
          [EnqueueReactionForSend (ReactionForSend.mk messageId nextReaction false);
           Dispatch NOOP]
      | inl error =>
          [EnqueueReactionForSend (ReactionForSend.mk messageId nextReaction false);
           LogError "Error enqueuing reaction" error messageId nextReaction;
           ShowToast ToastReactionFailed;
           Dispatch NOOP]
      end.
Proof.
  unfold reactToStory, completion, trace. cbn.
  destruct (enqueueReactionForSend world _) as [error|[]]; cbn; auto.
Qed.
(** *** Deleting a story for everyone *)

Lemma SetAdd_elem x y s : x ∈ SetAdd y s ↔ x = y ∨ x ∈ s.
Proof.
  unfold SetAdd. case_decide.
  - split; [auto|]. intros [->|]; assumption.
  - rewrite elem_of_app, list_elem_of_singleton. tauto.
Qed.

Lemma SetFrom_elem x xs : x ∈ SetFrom xs ↔ x ∈ xs.
Proof.
  unfold SetFrom.
  assert (∀ acc, x ∈ foldl (λ s y, SetAdd y s) acc xs ↔ x ∈ acc ∨ x ∈ xs) as Hgen.
  { induction xs as [|y xs IH]; intros acc; simpl.
    - rewrite elem_of_nil. tauto.
    - rewrite IH, SetAdd_elem, elem_of_cons. tauto. }
  rewrite Hgen, elem_of_nil. tauto.
Qed.

Lemma SetDelete_elem x y s : x ∈ SetDelete y s ↔ x ≠ y ∧ x ∈ s.
Proof. unfold SetDelete. exact (list_elem_of_filter (λ z, z ≠ y) s x). Qed.

Lemma SetDelete_all_elem x ys s :
  x ∈ foldl (λ ids y, SetDelete y ids) s ys ↔ x ∈ s ∧ x ∉ ys.
Proof.
  revert s. induction ys as [|y ys IH]; intros s; simpl.
  - rewrite elem_of_nil. tauto.
  - rewrite IH, SetDelete_elem, not_elem_of_cons. tauto.
Qed.

Lemma ObjectKeys_elem {V} (o : gmap string V) k : k ∈ ObjectKeys o ↔ is_Some (o !! k).
Proof.
  unfold ObjectKeys. rewrite list_elem_of_fmap. split.
  - intros ([k' v] & -> & Hin). apply elem_of_map_to_list in Hin. eauto.
  - intros [v Hv]. exists (k, v). split; [reflexivity|].
    apply elem_of_map_to_list, Hv.
Qed.

(** Who is left in the set of [deleteStoryForEveryone]: the recipients of
    the story that are no key of the send states of any story of the store
    with the same timestamp. *)
Lemma remainingRecipients_elem (story : StoryView.t) sendState state cid :
  cid ∈ remainingRecipients story sendState state
  ↔ cid ∈ (λ s, Conversation.id (StorySendState.recipient s)) <$> sendState
    ∧ ∀ item byConversation,
        item ∈ stories state →
        Story.timestamp item = StoryView.timestamp story →
        Story.sendStateByConversationId item = Some byConversation →
        byConversation !! cid = None.
Proof.
  unfold remainingRecipients.
  rewrite <- (SetFrom_elem cid (_ <$> sendState)).
  generalize (SetFrom ((λ s, Conversation.id (StorySendState.recipient s)) <$> sendState)).
  induction (stories state) as [|item l IH]; intros ids; simpl.
  - split; [|intros [Hin _]; exact Hin]. intros Hin. split; [exact Hin|].
    intros item m Hitem. apply elem_of_nil in Hitem. contradiction.
  - rewrite IH. clear IH. case_decide as Hts.
    + split; intros [Hin Hall]; (split; [exact Hin|]).
      * intros other m Hother Hsame Hm.
        apply elem_of_cons in Hother as [->|Hother]; [contradiction|eauto].
      * intros other m Hother. apply Hall. right. exact Hother.
    + destruct (Story.sendStateByConversationId item) as [m|] eqn:Hm.
      * rewrite SetDelete_all_elem, ObjectKeys_elem, <- eq_None_not_Some.
        split.
        -- intros [[Hin Hkey] Hall]. split; [exact Hin|].
           intros other m' Hother Hsame Hm'.
           apply elem_of_cons in Hother as [->|Hother]; [congruence|eauto].
        -- intros [Hin Hall]. split; [split; [exact Hin|]|].
           ++ apply (Hall item m); [left|exact Hts|exact Hm].
           ++ intros other m' Hother. apply Hall. right. exact Hother.
      * split; intros [Hin Hall]; (split; [exact Hin|]).
        -- intros other m Hother Hsame Hm'.
           apply elem_of_cons in Hother as [->|Hother]; [congruence|eauto].
        -- intros other m Hother. apply Hall. right. exact Hother.
Qed.

(** A [forEach] whose callback looks the conversation up and, when there is
    one, emits a single event runs to completion and leaves the events of
    the conversations found, in order. *)
Lemma forEach_found world (f : Conversation.t → @Event Rest Reaction SendState Edit)
    (ids : list string) :
  forEach ids (λ cid,
    match ConversationController_get world cid with
    | None => mret ()
    | Some conversation => emit (f conversation)
    end)
  = (f <$> omap (ConversationController_get world) ids, inr ()).
Proof.
  induction ids as [|cid ids IH]; [reflexivity|].
  unfold forEach in *. simpl foldr. rewrite IH. simpl omap.
  destruct (ConversationController_get world cid); reflexivity.
Qed.

(** What [deleteStoryForEveryone] does for a story with send states: one
    retraction for each remaining recipient whose conversation exists, in
    the order of the set, then the dispatch. *)
Lemma deleteStoryForEveryone_run world (story : StoryView.t) sendState state :
  StoryView.sendState story = Some sendState →
  deleteStoryForEveryone world story state
  = (((λ conversation,
         SendDeleteForEveryoneMessage (Rest:=Rest) (Reaction:=Reaction) conversation
           (DeleteOptions.mk DAY (StoryView.messageId story) (StoryView.timestamp story)))
        <$> omap (ConversationController_get world)
                 (remainingRecipients story sendState state))
     ++ [Dispatch (DOE_STORY (StoryView.messageId story))], inr ()).
Proof.
  intros Hsend. unfold deleteStoryForEveryone. rewrite Hsend.
  rewrite (forEach_found world
             (λ conversation,
                SendDeleteForEveryoneMessage conversation
                  (DeleteOptions.mk DAY (StoryView.messageId story)
                                    (StoryView.timestamp story)))).
  reflexivity.
Qed.
End DuckProperties.

(** * Properties of the edit-eligibility rule *)

Section CanEditProperties.
Context {SendState Edit : Type}.

(** C10. A message whose [deletedForEveryone] flag is true cannot be
    edited, whatever its other fields, the helpers and our own conversation
    are: both the general branch and the note-to-self branch ask for the
    flag to be off. *)
Theorem canEditMessage_deleted (h : @EditHelpers SendState Edit)
    (message : Message.t SendState Edit) :
  Message.deletedForEveryone message = Some true →
  canEditMessage h message = false.
Proof.
  intros Hdeleted. unfold canEditMessage. rewrite Hdeleted.
  destruct (canEditMessages h); simpl; case_decide; reflexivity.
Qed.
End CanEditProperties.

(** * The properties at work on the concrete store *)

Lemma message_deleted_removes_one_witness :
  reducer Sample.pair (MESSAGE_DELETED "zz" "c") = Identical
  ∧ ∃ next, reducer Sample.pair (MESSAGE_DELETED "a" "c") = Updated next
            ∧ length (stories next) + 1 = length (stories Sample.pair).
Proof.
  split.
  - apply (proj1 (message_deleted_removes_one Sample.pair "zz" "c")).
    unfold messageIds. compute_done.
  - destruct (proj2 (message_deleted_removes_one Sample.pair "a" "c"))
      as (next & Hred & _ & _ & _ & Hone).
    + unfold messageIds. compute_done.
    + exists next. split; [exact Hred|]. apply Hone.
      unfold uniqueMessageIds, messageIds. compute_done.
Defined.

Lemma story_added_sorted_witness :
  ∃ next, reducer Sample.pair (STORY_CHANGED Sample.between) = Updated next
          ∧ ascendingByTimestamp (stories next)
          ∧ stories next ≡ₚ stories Sample.pair ++ [Sample.between].
Proof.
  apply (story_added_sorted Sample.pair Sample.between).
  unfold messageIds. compute_done.
Defined.

Lemma reducer_keeps_ids_unique_witness :
  uniqueMessageIds (nextState Sample.pair (STORY_CHANGED Sample.between)).
Proof.
  apply (reducer_keeps_ids_unique Sample.pair (STORY_CHANGED Sample.between)).
  unfold uniqueMessageIds, messageIds. compute_done.
Defined.

(** The claim of C1 fails on a story that is still downloading: stored and
    incoming view-model are the same, none of the listed transitions took
    place, and yet the reducer makes a new state. *)
Lemma story_changed_downloading_again :
  Story.messageId Sample.stillDownloading
    ∈ messageIds (Sample.store [Sample.stillDownloading])
  ∧ sameRelevantFields Sample.stillDownloading Sample.stillDownloading
  ∧ ¬ listedTransition Sample.stillDownloading Sample.stillDownloading
  ∧ reducer (Sample.store [Sample.stillDownloading])
            (STORY_CHANGED Sample.stillDownloading)
    ≠ Identical.
Proof.
  split; [unfold messageIds; compute_done|].
  split; [repeat split|].
  split; [|discriminate].
  unfold listedTransition. intros [[H _]|[[_ H]|[[_ H]|[H|[H|H]]]]];
    solve [vm_compute in H; discriminate H | apply H; reflexivity].
Qed.

Lemma story_changed_listed_witness :
  ∃ i prevStory,
    firstWithId "a" (stories Sample.pair) i prevStory
    ∧ (reducer Sample.pair (STORY_CHANGED Sample.lateViewed) = Identical
       ↔ ¬ replacementCalledFor prevStory Sample.lateViewed)
    ∧ (replacementCalledFor prevStory Sample.lateViewed →
       reducer Sample.pair (STORY_CHANGED Sample.lateViewed)
       = Updated (mkState (isShowingStoriesView Sample.pair) (replyState Sample.pair)
                    (take i (stories Sample.pair)
                     ++ Sample.lateViewed :: drop (S i) (stories Sample.pair)))).
Proof.
  apply (story_changed_listed Sample.pair Sample.lateViewed).
  unfold messageIds. compute_done.
Defined.

Lemma reply_observed_witness :
  reducer Sample.thread (MESSAGE_CHANGED "r3" "c" Sample.reply3)
  = Updated (Sample.threaded "a" [Sample.reply1; Sample.reply2; Sample.reply3])
  ∧ ∃ i old,
      [Sample.reply1; Sample.reply2] !! i = Some old
      ∧ Message.id old = "r1"
      ∧ (∀ j reply, [Sample.reply1; Sample.reply2] !! j = Some reply →
                    j < i → Message.id reply ≠ "r1")
      ∧ reducer Sample.thread (MESSAGE_CHANGED "r1" "c" Sample.reply1Edited)
        = Updated (mkState true
                     (Some (ReplyState.mk "a"
                              (take i [Sample.reply1; Sample.reply2]
                               ++ Sample.reply1Edited
                                  :: drop (S i) [Sample.reply1; Sample.reply2])))
                     []).
Proof.
  split.
  - apply (proj2 (reply_observed Sample.thread "r3" "c" Sample.reply3)
             (ReplyState.mk "a" [Sample.reply1; Sample.reply2]) eq_refl).
    + reflexivity.
    + compute_done.
  - apply (proj2 (reply_observed Sample.thread "r1" "c" Sample.reply1Edited)
             (ReplyState.mk "a" [Sample.reply1; Sample.reply2]) eq_refl).
    + reflexivity.
    + compute_done.
Defined.

Lemma attachment_url_resolved_witness :
  ∃ next resolved,
    reducer Sample.pair (RESOLVE_ATTACHMENT_URL "a" "file:///a.jpg") = Updated next
    ∧ stories next !! 1 = Some resolved
    ∧ Story.attachment resolved
      = Some (Attachment.mk (Some "file:///a.jpg") Sample.Downloaded)
    ∧ stories next !! 0 = Some Sample.early.
Proof.
  destruct (proj2 (attachment_url_resolved Sample.pair "a" "file:///a.jpg")
              1 Sample.late) as [_ Hresolved].
  - apply list_find_firstWithId. reflexivity.
  - destruct (Hresolved (Attachment.mk None Sample.Downloaded) eq_refl)
      as (next & resolved & Hred & _ & _ & _ & Hat & Hother & Hatt & _).
    exists next, resolved. split; [exact Hred|]. split; [exact Hat|].
    split; [exact Hatt|]. rewrite Hother by lia. reflexivity.
Defined.

(** The claim of C5 fails when the message lookup comes back empty: the
    story is there, downloaded and unread, and nothing is dispatched. *)
Lemma markStoryRead_without_message :
  firstWithId "a" (stories Sample.pair) 1 Sample.late
  ∧ isDownloaded (Story.attachment Sample.late) = true
  ∧ Story.readStatus Sample.late = Some Unread
  ∧ dispatched (trace (markStoryRead Sample.quiet "a" Sample.pair)) = [].
Proof.
  split; [apply list_find_firstWithId; reflexivity|]. repeat split.
Qed.

Lemma markStoryRead_guarded_witness :
  markStoryRead (Sample.world (Some Sample.reply1) false (inr ())) "b" Sample.pair
  = ([], inr ())
  ∧ dispatched
      (trace (markStoryRead (Sample.world (Some Sample.reply1) false (inr ()))
                            "a" Sample.pair))
    = [MARK_STORY_READ "a"].
Proof.
  split.
  - destruct (proj2 (markStoryRead_guarded
                       (Sample.world (Some Sample.reply1) false (inr ())) "b"
                       Sample.pair) 0 Sample.early) as [Hskipped _].
    + apply list_find_firstWithId. reflexivity.
    + apply Hskipped. left. reflexivity.
  - destruct (proj2 (markStoryRead_guarded
                       (Sample.world (Some Sample.reply1) false (inr ())) "a"
                       Sample.pair) 1 Sample.late) as [_ Hready].
    + apply list_find_firstWithId. reflexivity.
    + destruct (Hready eq_refl eq_refl) as [_ Hsuccess].
      rewrite (Hsuccess Sample.reply1 eq_refl eq_refl). reflexivity.
Defined.

(** C2. With story A itself in the store, as it is whenever the story shown
    comes from the store, the walk over the stories with A's timestamp
    strikes A's own recipients from the set: nobody is sent the retraction,
    X included, and only the dispatch is left.  With B alone in the store
    the same call sends the retraction to X and not to Y. *)
Theorem deleteStoryForEveryone_strikes_own_recipients :
  deleteStoryForEveryone Sample.quiet Sample.viewA
    (Sample.store [Sample.storyA; Sample.storyB])
  = ([Dispatch (DOE_STORY "A")], inr ())
  ∧ retractedTo
      (trace (deleteStoryForEveryone Sample.quiet Sample.viewA
                (Sample.store [Sample.storyB])))
    = ["X"].
Proof. split; vm_compute; reflexivity. Qed.

Lemma canEditMessage_deleted_witness :
  canEditMessage Sample.lenient Sample.deletedMessage = false.
Proof.
  apply (canEditMessage_deleted Sample.lenient Sample.deletedMessage).
  reflexivity.
Defined.

(** * Further properties of the reducer *)

Section MoreDuckProperties.
Context {Rest Reaction SendState Edit : Type}.
Context `{!EqDecision SendState} `{!AttachmentHelpers Rest}.

Local Abbreviation Story := (Story.t Rest Reaction SendState).
Local Abbreviation Message := (Message.t SendState Edit).
Local Abbreviation State := (@StoriesStateType Rest Reaction SendState Edit).
Local Abbreviation Action := (@StoriesActionType Rest Reaction SendState Edit).

Implicit Types (state next : State) (action : Action) (l : list Story).
Implicit Types (story payload : Story) (id : string).

(** *** Helpers *)

Lemma state_eta state :
  mkState (isShowingStoriesView state) (replyState state) (stories state) = state.
Proof. destruct state. reflexivity. Qed.

Lemma filter_same_length {A} (P : A → Prop) `{∀ x, Decision (P x)} (arr : list A) :
  length (filter P arr) = length arr → filter P arr = arr.
Proof.
  induction arr as [|x arr IH]; [reflexivity|].
  destruct (decide (P x)) as [HP|HP].
  - rewrite filter_cons_True by exact HP. simpl. intros Hlen. f_equal. apply IH. lia.
  - rewrite filter_cons_False by exact HP. simpl. intros Hlen.
    pose proof (length_filter P arr). lia.
Qed.

(** Whether or not the reducer makes a new state, the stories left by
    [MESSAGE_DELETED] are those with another id. *)
Lemma message_deleted_stories state id conversationId :
  stories (nextState state (MESSAGE_DELETED id conversationId))
  = filter (λ story : Story, Story.messageId story ≠ id) (stories state).
Proof.
  unfold nextState, reducer. case_decide as Hlen; [|reflexivity].
  symmetry. apply filter_same_length, Hlen.
Qed.

Lemma firstWithId_replaced id l i story story' :
  firstWithId id l i story →
  Story.messageId story' = id →
  firstWithId id (replaceIndex l i story') i story'.
Proof.
  intros (Hi & _ & Hfirst) Hid. unfold replaceIndex. split; [|split].
  - apply list_lookup_insert_eq. eapply lookup_lt_Some, Hi.
  - exact Hid.
  - intros j other Hj Hlt. rewrite list_lookup_insert_ne in Hj by lia. eauto.
Qed.

Lemma ascending_timestamps l :
  ascendingByTimestamp l ↔ StronglySorted Z.le (Story.timestamp <$> l).
Proof.
  unfold ascendingByTimestamp. induction l as [|x l IH].
  - split; constructor.
  - rewrite fmap_cons.
    split; intros Hs; apply StronglySorted_inv in Hs as [Hl Hx]; constructor.
    + apply IH, Hl.
    + rewrite Forall_fmap. exact Hx.
    + apply IH, Hl.
    + rewrite Forall_fmap in Hx. exact Hx.
Qed.

Lemma ascending_filter (P : Story → Prop) `{∀ x, Decision (P x)} l :
  ascendingByTimestamp l → ascendingByTimestamp (filter P l).
Proof.
  unfold ascendingByTimestamp. induction 1 as [|x l Hl IH Hx]; [constructor|].
  destruct (decide (P x)).
  - rewrite filter_cons_True by assumption. constructor; [exact IH|].
    apply Forall_forall. intros y Hy. apply list_elem_of_filter in Hy as [_ Hy].
    rewrite Forall_forall in Hx. auto.
  - rewrite filter_cons_False by assumption. exact IH.
Qed.

Lemma timestamps_replaceIndex l i story story' :
  l !! i = Some story →
  Story.timestamp story' = Story.timestamp story →
  Story.timestamp <$> replaceIndex l i story' = Story.timestamp <$> l.
Proof.
  intros Hi Hts. unfold replaceIndex.
  rewrite list_fmap_insert, Hts. apply list_insert_id.
  rewrite list_lookup_fmap, Hi. reflexivity.
Qed.

(** *** Toggling the view *)

(** X1. [TOGGLE_VIEW] flips the flag and nothing else, so that toggling
    twice gives the state one started from. *)
Theorem toggle_view_twice state :
  stories (nextState state TOGGLE_VIEW) = stories state
  ∧ replyState (nextState state TOGGLE_VIEW) = replyState state
  ∧ (isShowingStoriesView (nextState state TOGGLE_VIEW)
     = negb (isShowingStoriesView state))
  ∧ nextState (nextState state TOGGLE_VIEW) TOGGLE_VIEW = state.
Proof.
  repeat split. unfold nextState, reducer. simpl.
  rewrite negb_involutive. apply state_eta.
Qed.

(** *** Removing a message, once more *)

(** X2. After [MESSAGE_DELETED] for an id, whatever the state was, no story
    carries the id, the stories with another id are all still there, and a
    second [MESSAGE_DELETED] for the id hands back the state it is
    given. *)
Theorem message_deleted_gone state id conversationId conversationId' :
  (id ∉ messageIds (nextState state (MESSAGE_DELETED id conversationId)))
  ∧ (∀ story,
       story ∈ stories (nextState state (MESSAGE_DELETED id conversationId))
       ↔ story ∈ stories state ∧ Story.messageId story ≠ id)
  ∧ reducer (nextState state (MESSAGE_DELETED id conversationId))
            (MESSAGE_DELETED id conversationId')
    = Identical.
Proof.
  assert (id ∉ messageIds (nextState state (MESSAGE_DELETED id conversationId)))
    as Hgone.
  { unfold messageIds. rewrite message_deleted_stories.
    intros Hin. apply list_elem_of_fmap in Hin as (story & -> & Hin).
    apply list_elem_of_filter in Hin as [Hne _]. apply Hne. reflexivity. }
  split; [exact Hgone|]. split.
  - intros story. rewrite message_deleted_stories, list_elem_of_filter. tauto.
  - unfold reducer at 1. rewrite filter_absent by exact Hgone.
    rewrite decide_True; reflexivity.
Qed.

(** *** Adding a story, then hearing of it again *)

Lemma shouldReplace_same story :
  shouldReplace story story = isDownloading (Story.attachment story).
Proof.
  unfold shouldReplace, isDownloadingAttachment, hasAttachmentDownloaded,
    hasBeenDeleted, hasSendStateChanged, readStatusChanged, reactionsChanged.
  rewrite !bool_decide_eq_true_2 by reflexivity.
  destruct (isDownloading _), (isDownloaded _), (truthy _); reflexivity.
Qed.

(** X3. Once a story with a new id has been added, it is the story found
    under its id, and the same [STORY_CHANGED] a second time hands back the
    state it is given exactly when the attachment is not downloading. *)
Theorem story_changed_again state payload :
  Story.messageId payload ∉ messageIds state →
  (∃ i, firstWithId (Story.messageId payload)
          (stories (nextState state (STORY_CHANGED payload))) i payload)
  ∧ (reducer (nextState state (STORY_CHANGED payload)) (STORY_CHANGED payload)
     = Identical
     ↔ isDownloading (Story.attachment payload) = false).
Proof.
  intros Hnew.
  assert (nextState state (STORY_CHANGED payload)
          = withStories state (sort byTimestamp (stories state ++ [payload])))
    as ->.
  { unfold nextState. rewrite (story_changed_new _ _ Hnew). reflexivity. }
  set (next := withStories state (sort byTimestamp (stories state ++ [payload]))).
  assert (Story.messageId payload ∈ messageIds next) as Hin.
  { unfold messageIds, next. simpl. rewrite sort_Permutation, fmap_app.
    apply elem_of_app. right. simpl. left. }
  apply list_find_present in Hin as (i & found & Hfind).
  apply list_find_firstWithId in Hfind.
  assert (found = payload) as ->.
  { destruct Hfind as (Hi & Hid & _).
    apply list_elem_of_lookup_2 in Hi. unfold next in Hi. simpl in Hi.
    rewrite sort_Permutation in Hi. apply elem_of_app in Hi as [Hi|Hi].
    - exfalso. apply Hnew. unfold messageIds. rewrite <- Hid.
      apply list_elem_of_fmap. exists found. auto.
    - apply list_elem_of_singleton in Hi. exact Hi. }
  split; [exists i; exact Hfind|].
  rewrite (story_changed_found _ _ _ _ Hfind), shouldReplace_same.
  destruct (isDownloading (Story.attachment payload)); split;
    solve [reflexivity | discriminate].
Qed.

(** *** What the transitions keep *)

(** X4. The stories stay ascending by timestamp under every action, provided
    a [STORY_CHANGED] for a story that is already listed carries the
    timestamp that story has: a replacement is made in place and the list
    is sorted again only when a story is added. *)
Theorem reducer_keeps_order state action :
  ascendingByTimestamp (stories state) →
  (∀ payload i prevStory,
     action = STORY_CHANGED payload →
     firstWithId (Story.messageId payload) (stories state) i prevStory →
     Story.timestamp payload = Story.timestamp prevStory) →
  ascendingByTimestamp (stories (nextState state action)).
Proof.
  intros Hsorted Hsame.
  destruct action as [payload|mid replies|payload|id cid data|id cid|payload
                     |mid url|payload| |].
  - (* DOE_STORY *)
    unfold nextState, reducer.
    destruct (list_find _ _) as [[i prevStory]|] eqn:Hfind; [|exact Hsorted].
    apply list_find_firstWithId in Hfind as (Hi & _). simpl.
    apply ascending_timestamps.
    erewrite timestamps_replaceIndex; [apply ascending_timestamps, Hsorted|exact Hi|].
    reflexivity.
  - exact Hsorted.
  - (* MARK_STORY_READ *)
    unfold nextState, reducer. simpl. apply ascending_timestamps.
    rewrite <- list_fmap_compose.
    erewrite list_fmap_ext; [apply ascending_timestamps, Hsorted|].
    intros j story _. unfold compose.
    destruct (decide (Story.messageId story = payload)); reflexivity.
  - (* MESSAGE_CHANGED *)
    unfold nextState, reducer.
    destruct (replyState state) as [thread|]; [|exact Hsorted].
    case_decide; [|exact Hsorted].
    destruct (findIndex _ _); exact Hsorted.
  - (* MESSAGE_DELETED *)
    rewrite message_deleted_stories. apply ascending_filter, Hsorted.
  - unfold nextState, reducer. destruct (replyState state); exact Hsorted.
  - (* RESOLVE_ATTACHMENT_URL *)
    unfold nextState, reducer.
    destruct (list_find _ _) as [[i story]|] eqn:Hfind; [|exact Hsorted].
    destruct (Story.attachment story) as [a|]; [|exact Hsorted].
    apply list_find_firstWithId in Hfind as (Hi & _). simpl.
    apply ascending_timestamps.
    erewrite timestamps_replaceIndex; [apply ascending_timestamps, Hsorted|exact Hi|].
    reflexivity.
  - (* STORY_CHANGED *)
    unfold nextState, reducer.
    destruct (list_find _ _) as [[i prevStory]|] eqn:Hfind.
    + apply list_find_firstWithId in Hfind.
      pose proof (Hsame payload i prevStory eq_refl Hfind) as Hts.
      destruct Hfind as (Hi & _).
      destruct (shouldReplace prevStory payload); [|exact Hsorted]. simpl.
      apply ascending_timestamps.
      erewrite timestamps_replaceIndex;
        [apply ascending_timestamps, Hsorted|exact Hi|exact Hts].
    + simpl. apply sort_byTimestamp_ascending.
  - exact Hsorted.
  - exact Hsorted.
Qed.

(** X5. Which ids are listed, and in which order, changes only when a
    message is removed or a story with a new id is added: every other
    action leaves the list of ids as it was. *)
Theorem reducer_keeps_ids state action :
  (∀ id conversationId, action ≠ MESSAGE_DELETED id conversationId) →
  (∀ payload, action = STORY_CHANGED payload →
              Story.messageId payload ∈ messageIds state) →
  messageIds (nextState state action) = messageIds state.
Proof.
  intros Hkeep Hknown. unfold messageIds.
  destruct action as [payload|mid replies|payload|id cid data|id cid|payload
                     |mid url|payload| |]; unfold nextState, reducer.
  - destruct (list_find _ _) as [[i prevStory]|] eqn:Hfind; [|reflexivity].
    apply list_find_firstWithId in Hfind as (Hi & _). simpl.
    eapply messageIds_replaceIndex; [exact Hi|reflexivity].
  - reflexivity.
  - simpl. rewrite <- list_fmap_compose. apply list_fmap_ext.
    intros j story _. unfold compose.
    destruct (decide (Story.messageId story = payload)); reflexivity.
  - destruct (replyState state) as [thread|]; [|reflexivity].
    case_decide; [|reflexivity]. destruct (findIndex _ _); reflexivity.
  - exfalso. exact (Hkeep id cid eq_refl).
  - destruct (replyState state); reflexivity.
  - destruct (list_find _ _) as [[i story]|] eqn:Hfind; [|reflexivity].
    destruct (Story.attachment story) as [a|]; [|reflexivity].
    apply list_find_firstWithId in Hfind as (Hi & _). simpl.
    eapply messageIds_replaceIndex; [exact Hi|reflexivity].
  - destruct (list_find _ _) as [[i prevStory]|] eqn:Hfind.
    + apply list_find_firstWithId in Hfind as (Hi & Hid & _).
      destruct (shouldReplace prevStory payload); [|reflexivity]. simpl.
      eapply messageIds_replaceIndex; [exact Hi|]. symmetry. exact Hid.
    + exfalso. apply list_find_absent in Hfind.
      exact (Hfind (Hknown payload eq_refl)).
  - reflexivity.
  - reflexivity.
Qed.

(** X6. No action closes an open reply thread; and unless the action is
    [LOAD_STORY_REPLIES], the thread stays that of the same story and loses
    no reply: it has as many replies as before, or one more. *)
Theorem reducer_keeps_thread state action (thread : ReplyState.t Message) :
  replyState state = Some thread →
  ∃ thread',
    replyState (nextState state action) = Some thread'
    ∧ ((∀ messageId replies, action ≠ LOAD_STORY_REPLIES messageId replies) →
       ReplyState.messageId thread' = ReplyState.messageId thread
       ∧ length (ReplyState.replies thread) ≤ length (ReplyState.replies thread')
       ∧ length (ReplyState.replies thread') ≤ length (ReplyState.replies thread) + 1).
Proof.
  intros Hthread.
  destruct action as [payload|mid replies|payload|id cid data|id cid|payload
                     |mid url|payload| |]; unfold nextState, reducer.
  - destruct (list_find _ _) as [[i prevStory]|]; exists thread; simpl; auto with lia.
  - eexists. split; [reflexivity|]. intros Hnot. destruct (Hnot mid replies eq_refl).
  - exists thread. simpl. auto with lia.
  - rewrite Hthread. case_decide; [|exists thread; auto with lia].
    destruct (findIndex _ _) as [i|]; eexists; (split; [reflexivity|]); intros _; simpl.
    + unfold replaceIndex. rewrite length_insert. auto with lia.
    + rewrite length_app. simpl. auto with lia.
  - case_decide; exists thread; simpl; auto with lia.
  - rewrite Hthread. eexists. split; [reflexivity|]. intros _. simpl.
    rewrite length_app. simpl. auto with lia.
  - destruct (list_find _ _) as [[i story]|]; [|exists thread; auto with lia].
    destruct (Story.attachment story); exists thread; simpl; auto with lia.
  - destruct (list_find _ _) as [[i prevStory]|].
    + destruct (negb (shouldReplace prevStory payload)); exists thread; simpl;
        auto with lia.
    + exists thread. simpl. auto with lia.
  - exists thread. simpl. auto with lia.
  - exists thread. auto with lia.
Qed.

(** *** Marking a story read *)

Lemma with_readStatus_twice (r : ReadStatus) story :
  Story.with_readStatus r (Story.with_readStatus r story) = Story.with_readStatus r story.
Proof. reflexivity. Qed.

Lemma find_marked id l :
  find (λ story : Story, Story.messageId story = id)
       ((λ story : Story, if decide (Story.messageId story = id)
                          then Story.with_readStatus Viewed story else story) <$> l)
  = Story.with_readStatus Viewed
      <$> find (λ story : Story, Story.messageId story = id) l.
Proof.
  unfold find. induction l as [|x l IH]; [reflexivity|].
  rewrite fmap_cons. cbn [list_find].
  destruct (decide (Story.messageId x = id)) as [Hx|Hx].
  - rewrite !decide_True by (simpl; assumption). reflexivity.
  - rewrite !decide_False by assumption.
    rewrite <- !option_fmap_compose in *.
    destruct (list_find _ l) as [[i y]|], (list_find _ (_ <$> l)) as [[j z]|];
      simpl in *; congruence.
Qed.

(** X7. [MARK_STORY_READ] gives every story with the id the status [Viewed]
    and leaves the other stories, their number and their order alone;
    marking twice is marking once. *)
Theorem mark_story_read_settles state id :
  (∀ i story,
     stories state !! i = Some story →
     stories (nextState state (MARK_STORY_READ id)) !! i
     = Some (if decide (Story.messageId story = id)
             then Story.with_readStatus Viewed story else story))
  ∧ length (stories (nextState state (MARK_STORY_READ id))) = length (stories state)
  ∧ nextState (nextState state (MARK_STORY_READ id)) (MARK_STORY_READ id)
    = nextState state (MARK_STORY_READ id).
Proof.
  unfold nextState, reducer. simpl. split; [|split].
  - intros i story Hi. rewrite list_lookup_fmap, Hi. reflexivity.
  - apply length_fmap.
  - unfold withStories. simpl. f_equal.
    rewrite <- list_fmap_compose. apply list_fmap_ext.
    intros j story _. unfold compose.
    destruct (decide (Story.messageId story = id)) as [Hid|Hid].
    + rewrite decide_True by exact Hid. reflexivity.
    + rewrite decide_False by exact Hid. reflexivity.
Qed.

(** X8. Once the reducer has seen [MARK_STORY_READ] for an id,
    [markStoryRead] for that id dispatches nothing and calls no collaborator
    whatever they would answer: it ends at once, after a warning when no
    story has the id. *)
Theorem markStoryRead_after_read (world : @Collaborators SendState Edit) state id :
  markStoryRead world id (nextState state (MARK_STORY_READ id)) = ([], inr ())
  ∨ markStoryRead world id (nextState state (MARK_STORY_READ id))
    = ([LogWarn ("markStoryRead: no matching story found: " +:+ id)], inr ()).
Proof.
  unfold markStoryRead, nextState, reducer. cbn [stories withStories].
  rewrite find_marked.
  destruct (find _ (stories state)) as [story|]; [left|right; reflexivity].
  cbn [fmap option_fmap option_map Story.readStatus Story.with_readStatus
       Story.attachment].
  destruct (isDownloaded _); reflexivity.
Qed.

(** X28. When the story is there, downloaded and unread and the message is
    found, but persisting the read is rejected, [markStoryRead] throws that
    error on and dispatches nothing, although the message has been marked
    viewed and the viewed receipt queued by then. *)
Theorem markStoryRead_persist_rejected (world : @Collaborators SendState Edit) state id
    i story (message : Message) error :
  firstWithId id (stories state) i story →
  isDownloaded (Story.attachment story) = true →
  Story.readStatus story = Some Unread →
  getMessageById world id = inr (Some message) →
  addNewStoryRead world
    (StoryRead.mk (Message.sourceUuid message) (Message.conversationId message) id
                  (Date_now world)) = inl error →
  completion (markStoryRead world id state) = inl error
  ∧ dispatched (trace (markStoryRead world id state)) = []
  ∧ MarkViewed message (Date_now world) ∈ trace (markStoryRead world id state)
  ∧ ViewedReceiptsJobQueueAdd
      (Sync.mk id (Message.source message) (Message.sourceUuid message)
               (Message.sent_at message))
    ∈ trace (markStoryRead world id state).
Proof.
  intros Hfirst Hdown Hunread Hlookup Hpersist. unfold markStoryRead.
  rewrite (find_first _ _ _ _ Hfirst), Hdown, Hunread.
  rewrite bool_decide_eq_true_2 by reflexivity. cbn [negb].
  rewrite Hlookup. cbn. rewrite Hpersist.
  unfold completion, trace.
  destruct (areWePrimaryDevice world); cbn; repeat split;
    repeat (first [apply list_elem_of_here | apply list_elem_of_further]).
Qed.

(** *** Deleting for everyone, thunk and reducer together *)

Lemma dispatched_retractions (f : Conversation.t → DeleteOptions.t)
    (conversations : list Conversation.t) (a : Action) :
  dispatched (((λ c, SendDeleteForEveryoneMessage c (f c)) <$> conversations)
              ++ [Dispatch a])
  = [a].
Proof.
  unfold dispatched. rewrite omap_app.
  induction conversations as [|c conversations IH]; [reflexivity|exact IH].
Qed.

(** X9. A story without send states is left alone by
    [deleteStoryForEveryone]: nothing is sent and nothing dispatched.  For a
    story with send states, whoever the retraction goes to, the dispatch,
    once reduced, sets the deletion flag of the first story with the id and
    changes nothing else in the list. *)
Theorem deleteStoryForEveryone_flags_story (world : @Collaborators SendState Edit)
    (story : StoryView.t) state :
  (StoryView.sendState story = None →
   deleteStoryForEveryone world story state = ([], inr ()))
  ∧ ∀ sendState i own,
      StoryView.sendState story = Some sendState →
      firstWithId (StoryView.messageId story) (stories state) i own →
      stories (reduceAll state
                 (dispatched (trace (deleteStoryForEveryone world story state))))
      = take i (stories state)
        ++ Story.with_deletedForEveryone true own :: drop (S i) (stories state).
Proof.
  split.
  - intros Hnone. unfold deleteStoryForEveryone. rewrite Hnone. reflexivity.
  - intros sendState i own Hsend Hfirst.
    rewrite (deleteStoryForEveryone_run world story sendState state Hsend).
    unfold trace. cbn [fst].
    rewrite (dispatched_retractions
               (λ _, DeleteOptions.mk DAY (StoryView.messageId story)
                                      (StoryView.timestamp story))).
    unfold reduceAll. cbn [foldl]. unfold nextState, reducer.
    pose proof Hfirst as (Hi & _).
    apply list_find_firstWithId in Hfirst. rewrite Hfirst. cbn [stories withStories].
    apply (replaceIndex_in_place _ _ _ _ Hi).
Qed.

Lemma SetFrom_NoDup xs : NoDup (SetFrom xs).
Proof.
  unfold SetFrom.
  assert (∀ acc, NoDup acc → NoDup (foldl (λ s x, SetAdd x s) acc xs)) as Hgen.
  { induction xs as [|x xs IH]; intros acc Hacc; [exact Hacc|].
    simpl. apply IH. unfold SetAdd. case_decide as Hin; [exact Hacc|].
    apply NoDup_app. split; [exact Hacc|]. split; [|apply NoDup_singleton].
    intros y Hy Hy'. apply list_elem_of_singleton in Hy'. subst y. contradiction. }
  apply Hgen, NoDup_nil_2.
Qed.

Lemma remainingRecipients_NoDup (story : StoryView.t) sendState state :
  NoDup (remainingRecipients story sendState state).
Proof.
  unfold remainingRecipients.
  generalize (SetFrom_NoDup
                ((λ s, Conversation.id (StorySendState.recipient s)) <$> sendState)).
  generalize (SetFrom ((λ s, Conversation.id (StorySendState.recipient s)) <$> sendState)).
  induction (stories state) as [|item l IH]; intros ids Hids; [exact Hids|].
  simpl. apply IH. case_decide; [exact Hids|].
  destruct (Story.sendStateByConversationId item) as [m|]; [|exact Hids].
  generalize (ObjectKeys m). intros keys. revert ids Hids.
  induction keys as [|k keys IHk]; intros ids Hids; [exact Hids|].
  simpl. apply IHk. unfold SetDelete. apply NoDup_filter, Hids.
Qed.

(** X13. For a story with send states, the retractions of
    [deleteStoryForEveryone] are those for the conversations that are known
    among a duplicate-free list of ids, in its order, followed by the
    dispatch; an id is in that list exactly when it is a recipient of the
    story and no story of the store with the same timestamp has it as a key
    of its send states. *)
Theorem deleteStoryForEveryone_recipients (world : @Collaborators SendState Edit)
    (story : StoryView.t) sendState state :
  StoryView.sendState story = Some sendState →
  ∃ ids,
    deleteStoryForEveryone world story state
    = (((λ conversation,
           SendDeleteForEveryoneMessage (Rest:=Rest) (Reaction:=Reaction) conversation
             (DeleteOptions.mk DAY (StoryView.messageId story)
                               (StoryView.timestamp story)))
          <$> omap (ConversationController_get world) ids)
       ++ [Dispatch (DOE_STORY (StoryView.messageId story))], inr ())
    ∧ NoDup ids
    ∧ ∀ cid,
        cid ∈ ids
        ↔ cid ∈ (λ s, Conversation.id (StorySendState.recipient s)) <$> sendState
          ∧ ∀ item byConversation,
              item ∈ stories state →
              Story.timestamp item = StoryView.timestamp story →
              Story.sendStateByConversationId item = Some byConversation →
              byConversation !! cid = None.
Proof.
  intros Hsend. exists (remainingRecipients story sendState state).
  split; [|split].
  - apply deleteStoryForEveryone_run, Hsend.
  - apply remainingRecipients_NoDup.
  - intros cid. apply remainingRecipients_elem.
Qed.

(** *** Replies *)

Lemma findIndex_snoc {A} (P : A → Prop) `{∀ x, Decision (P x)} (arr : list A) x :
  Forall (λ y, ¬ P y) arr → P x → findIndex P (arr ++ [x]) = Some (length arr).
Proof.
  intros Hnone Hx. apply findIndex_Some. exists x. split; [|split].
  - apply list_lookup_middle. reflexivity.
  - exact Hx.
  - intros j y Hj Hlt. rewrite lookup_app_l in Hj by exact Hlt.
    rewrite Forall_lookup in Hnone. eauto.
Qed.

Lemma findIndex_replaced {A} (P : A → Prop) `{∀ x, Decision (P x)} (arr : list A) i x :
  findIndex P arr = Some i → P x → findIndex P (replaceIndex arr i x) = Some i.
Proof.
  intros Hfind Hx. apply findIndex_Some in Hfind as (old & Hi & _ & Hfirst).
  apply findIndex_Some. exists x. unfold replaceIndex. split; [|split].
  - apply list_lookup_insert_eq. eapply lookup_lt_Some, Hi.
  - exact Hx.
  - intros j y Hj Hlt. rewrite list_lookup_insert_ne in Hj by lia. eauto.
Qed.

Lemma replaceIndex_snoc {A} (arr : list A) (x y : A) :
  replaceIndex (arr ++ [x]) (length arr) y = arr ++ [y].
Proof.
  unfold replaceIndex. rewrite insert_app_r_alt by lia.
  rewrite Nat.sub_diag. reflexivity.
Qed.

Lemma replaceIndex_twice {A} (arr : list A) i (x y : A) :
  replaceIndex (replaceIndex arr i x) i y = replaceIndex arr i y.
Proof. unfold replaceIndex. apply list_insert_insert_eq. Qed.

Lemma message_changed_thread state id conversationId (data : Message)
    (thread : ReplyState.t Message) :
  replyState state = Some thread →
  Some (ReplyState.messageId thread) = Message.storyId data →
  nextState state (MESSAGE_CHANGED id conversationId data)
  = mkState (isShowingStoriesView state)
      (Some (ReplyState.mk (ReplyState.messageId thread)
               (observedReplies id data (ReplyState.replies thread))))
      (stories state).
Proof.
  intros Hthread Hsame. unfold nextState, reducer, observedReplies.
  rewrite Hthread, decide_True by exact Hsame.
  destruct (findIndex _ _); reflexivity.
Qed.

Lemma observedReplies_twice id (data : Message) replies :
  Message.id data = id →
  observedReplies id data (observedReplies id data replies)
  = observedReplies id data replies.
Proof.
  intros Hid. unfold observedReplies at 2 3.
  destruct (findIndex _ replies) as [i|] eqn:Hfind.
  - unfold observedReplies.
    rewrite (findIndex_replaced _ _ _ _ Hfind Hid). apply replaceIndex_twice.
  - unfold observedReplies. apply findIndex_None in Hfind.
    rewrite (findIndex_snoc _ _ _ Hfind Hid). apply replaceIndex_snoc.
Qed.

(** X10. A [MESSAGE_CHANGED] whose data carries the id of the delta can be
    observed twice without harm: the second time changes nothing in the
    state the first one has left, in particular the reply is not listed
    twice. *)
Theorem reply_observed_twice state id conversationId (data : Message) :
  Message.id data = id →
  nextState (nextState state (MESSAGE_CHANGED id conversationId data))
            (MESSAGE_CHANGED id conversationId data)
  = nextState state (MESSAGE_CHANGED id conversationId data).
Proof.
  intros Hid.
  destruct (replyState state) as [thread|] eqn:Hthread.
  - destruct (decide (Some (ReplyState.messageId thread) = Message.storyId data))
      as [Hsame|Hother].
    + rewrite (message_changed_thread _ _ _ _ _ Hthread Hsame).
      erewrite message_changed_thread; [|reflexivity|exact Hsame].
      cbn [isShowingStoriesView stories ReplyState.messageId ReplyState.replies].
      rewrite observedReplies_twice by exact Hid. reflexivity.
    + assert (nextState state (MESSAGE_CHANGED id conversationId data) = state) as ->;
        unfold nextState, reducer; rewrite Hthread, decide_False by exact Hother;
        reflexivity.
  - assert (nextState state (MESSAGE_CHANGED id conversationId data) = state) as ->;
      unfold nextState, reducer; rewrite Hthread; reflexivity.
Qed.

(** X11. When the ids of the replies of the thread are pairwise different
    and the data of a [MESSAGE_CHANGED] carries the id of the delta, they
    are pairwise different afterwards. *)
Theorem reply_ids_stay_unique state id conversationId (data : Message)
    (thread : ReplyState.t Message) :
  Message.id data = id →
  replyState state = Some thread →
  NoDup (Message.id <$> ReplyState.replies thread) →
  ∃ thread',
    replyState (nextState state (MESSAGE_CHANGED id conversationId data)) = Some thread'
    ∧ NoDup (Message.id <$> ReplyState.replies thread').
Proof.
  intros Hid Hthread Hunique.
  destruct (decide (Some (ReplyState.messageId thread) = Message.storyId data))
    as [Hsame|Hother].
  - rewrite (message_changed_thread _ _ _ _ _ Hthread Hsame).
    eexists. split; [reflexivity|]. cbn [ReplyState.replies]. unfold observedReplies.
    destruct (findIndex _ _) as [i|] eqn:Hfind.
    + apply findIndex_Some in Hfind as (old & Hi & Hold & _).
      unfold replaceIndex. rewrite list_fmap_insert, Hid, <- Hold.
      rewrite list_insert_id; [exact Hunique|].
      rewrite list_lookup_fmap, Hi. reflexivity.
    + rewrite findIndex_None, Forall_forall in Hfind.
      rewrite fmap_app. apply NoDup_app. split; [exact Hunique|].
      split; [|apply NoDup_singleton].
      intros x Hx Hx'. apply list_elem_of_singleton in Hx'. subst x.
      apply list_elem_of_fmap in Hx as (reply & Heq & Hin).
      apply (Hfind reply Hin). congruence.
  - exists thread. split; [|exact Hunique].
    unfold nextState, reducer. rewrite Hthread, decide_False by exact Hother.
    exact Hthread.
Qed.


(** *** Resolving the URL twice *)

(** X14. Of two [RESOLVE_ATTACHMENT_URL] for the same id the later one
    decides: the state is the one the later action alone would have
    given. *)
Theorem attachment_url_last_wins state id url1 url2 :
  nextState (nextState state (RESOLVE_ATTACHMENT_URL id url1))
            (RESOLVE_ATTACHMENT_URL id url2)
  = nextState state (RESOLVE_ATTACHMENT_URL id url2).
Proof.
  destruct (list_find (λ existing : Story, Story.messageId existing = id)
              (stories state)) as [[i story]|] eqn:Hfind.
  - destruct (Story.attachment story) as [a|] eqn:Ha.
    + assert (∀ url, nextState state (RESOLVE_ATTACHMENT_URL id url)
                     = withStories state
                         (replaceIndex (stories state) i
                            (Story.with_attachment
                               (Attachment.mk (Some url) (Attachment.rest a)) story)))
        as Hone.
      { intros url. unfold nextState, reducer. rewrite Hfind, Ha. reflexivity. }
      rewrite !Hone. apply list_find_firstWithId in Hfind.
      pose proof (firstWithId_replaced id (stories state) i story
                    (Story.with_attachment
                       (Attachment.mk (Some url1) (Attachment.rest a)) story)
                    Hfind (proj1 (proj2 Hfind))) as Hfirst.
      apply list_find_firstWithId in Hfirst.
      unfold nextState, reducer. cbn [stories withStories]. rewrite Hfirst.
      cbn [Story.attachment Story.with_attachment Attachment.rest].
      unfold withStories. cbn [isShowingStoriesView replyState stories].
      rewrite replaceIndex_twice. reflexivity.
    + assert (∀ url, nextState state (RESOLVE_ATTACHMENT_URL id url) = state) as Hone.
      { intros url. unfold nextState, reducer. rewrite Hfind, Ha. reflexivity. }
      rewrite !Hone. reflexivity.
  - assert (∀ url, nextState state (RESOLVE_ATTACHMENT_URL id url) = state) as Hone.
    { intros url. unfold nextState, reducer. rewrite Hfind. reflexivity. }
    rewrite !Hone. reflexivity.
Qed.

End MoreDuckProperties.

(** * Properties of the remaining thunks *)

Section MoreThunkProperties.
Context {Rest Reaction SendState Edit Mention : Type}.
Context `{!EqDecision SendState} `{!AttachmentHelpers Rest}.

Local Abbreviation Story := (Story.t Rest Reaction SendState).
Local Abbreviation Message := (Message.t SendState Edit).
Local Abbreviation State := (@StoriesStateType Rest Reaction SendState Edit).
Local Abbreviation Action := (@StoriesActionType Rest Reaction SendState Edit).
Local Abbreviation StepHere := (@Step Rest Reaction SendState Edit Mention).
Local Abbreviation ServicesHere := (@Services Rest SendState Edit Mention).
Local Abbreviation loadStoryRepliesHere :=
  (@loadStoryReplies Rest Reaction SendState Edit Mention).
Local Abbreviation replyToStoryHere :=
  (@replyToStory Rest Reaction SendState Edit Mention).

Implicit Types (state : State) (world : @Collaborators SendState Edit).
Implicit Types (more : ServicesHere) (story : Story).

(** *** Queueing a download *)

(** X15. [queueStoryDownload] dispatches at most one action.  When the first
    story with the id has an attachment that is downloaded or downloading,
    the thunk neither clears the reply context of the message nor queues a
    download, and it completes without throwing. *)
Theorem queueStoryDownload_never_requeues world more storyId state :
  length (dispatchedSteps (queueStoryDownload world more storyId state).1) ≤ 1
  ∧ ∀ i story attachment,
      firstWithId storyId (stories state) i story →
      Story.attachment story = Some attachment →
      isDownloaded (Some attachment) = true ∨ isDownloading (Some attachment) = true →
      (queueStoryDownload world more storyId state).2 = inr ()
      ∧ ∀ message,
          ((ClearStoryReplyContext message : StepHere)
             ∉ (queueStoryDownload world more storyId state).1)
          ∧ ((QueueAttachmentDownloads message : StepHere)
               ∉ (queueStoryDownload world more storyId state).1).
Proof.
  split.
  - unfold queueStoryDownload.
    destruct (find _ _) as [story|]; [|simpl; lia].
    destruct (Story.attachment story) as [a|]; [|simpl; lia].
    destruct (isDownloaded (Some a)).
    + destruct (attachmentPath more a) as [[|c path]|]; [simpl; lia| |simpl; lia].
      destruct (hasNotResolved more (Some a)); simpl; lia.
    + destruct (isDownloading (Some a)); [simpl; lia|].
      destruct (getMessageById world storyId) as [e|[message|]]; cbn; [lia| |lia].
      destruct (queueAttachmentDownloads more message) as [e|[]]; cbn; lia.
  - intros i story a Hfirst Ha Hstate. unfold queueStoryDownload.
    rewrite (find_first _ _ _ _ Hfirst), Ha.
    assert (∀ (t : list StepHere) message,
              (∀ e, e ∈ t → ∃ action, e = Dispatched action) →
              (ClearStoryReplyContext message ∉ t)
              ∧ (QueueAttachmentDownloads message ∉ t)) as Honly.
    { intros t message Ht. split; intros Hin; destruct (Ht _ Hin) as [? Heq];
        discriminate Heq. }
    destruct (isDownloaded (Some a)) eqn:Hdown.
    + destruct (attachmentPath more a) as [[|c path]|];
        [split; [reflexivity|]; intros message; apply Honly; intros e He;
         apply elem_of_nil in He; contradiction| |
         split; [reflexivity|]; intros message; apply Honly; intros e He;
         apply elem_of_nil in He; contradiction].
      destruct (hasNotResolved more (Some a)); (split; [reflexivity|]);
        intros message; apply Honly; intros e He.
      * apply list_elem_of_singleton in He. eauto.
      * apply elem_of_nil in He. contradiction.
    + destruct Hstate as [Hd|Hd]; [discriminate Hd|]. rewrite Hd.
      split; [reflexivity|]. intros message. apply Honly. intros e He.
      apply elem_of_nil in He. contradiction.
Qed.

(** X16. When the first story with the id has a downloaded attachment with a
    path whose URL is not resolved yet, reducing what [queueStoryDownload]
    dispatches puts the absolute path into the URL of that story's
    attachment in the store; the rest of the attachment and of the story
    stay as they were. *)
Theorem queueStoryDownload_resolves_in_store world more storyId state i story
    attachment path :
  firstWithId storyId (stories state) i story →
  Story.attachment story = Some attachment →
  isDownloaded (Some attachment) = true →
  attachmentPath more attachment = Some path →
  path ≠ EmptyString →
  hasNotResolved more (Some attachment) = true →
  stories (reduceAll state
             (dispatchedSteps (queueStoryDownload world more storyId state).1))
    !! i
  = Some (Story.with_attachment
            (Attachment.mk (Some (getAbsoluteAttachmentPath more path))
                           (Attachment.rest attachment))
            story).
Proof.
  intros Hfirst Ha Hdown Hpath Hne Hnot. unfold queueStoryDownload.
  rewrite (find_first _ _ _ _ Hfirst), Ha, Hdown, Hpath.
  destruct path as [|c path]; [contradiction|]. rewrite Hnot.
  cbn [note fst dispatchedSteps omap list_omap]. unfold reduceAll. cbn [foldl].
  unfold nextState, reducer.
  pose proof Hfirst as (Hi & _).
  apply list_find_firstWithId in Hfirst. rewrite Hfirst, Ha.
  cbn [stories withStories].
  apply (replaceIndex_in_place _ _ _ _ Hi).
Qed.

(** *** Loading the replies *)

(** X17. [loadStoryReplies] asks for at most 9000 older messages of the
    story.  When the query answers, reducing the dispatch makes the thread
    that of the story with exactly the replies answered, whatever thread
    was open, and touches nothing else; when the query rejects, the error
    is thrown on and nothing is dispatched. *)
Theorem loadStoryReplies_outcome more conversationId messageId state :
  match getOlderMessagesByConversation more conversationId 9000 messageId
          (isGroupConversation more conversationId) with
  | inr replies =>
      (loadStoryRepliesHere more conversationId messageId).2 = inr ()
      ∧ reduceAll state
          (dispatchedSteps (loadStoryRepliesHere more conversationId messageId).1)
        = mkState (isShowingStoriesView state)
                  (Some (ReplyState.mk messageId replies)) (stories state)
  | inl error =>
      (loadStoryRepliesHere more conversationId messageId).2 = inl error
      ∧ dispatchedSteps (loadStoryRepliesHere more conversationId messageId).1 = []
  end.
Proof.
  unfold loadStoryReplies.
  destruct (getOlderMessagesByConversation more conversationId 9000 messageId _)
    as [error|replies]; cbn; split; reflexivity.
Qed.

(** *** Replying *)

(** X18. [replyToStory] for a conversation that is not known only logs the
    error: nothing is enqueued or dispatched.  For a known conversation
    whose send queue answers with the attributes of the message, reducing
    the dispatch puts the message at the end of the thread that is open,
    whichever story that thread is for, and changes nothing when no thread
    is open. *)
Theorem replyToStory_outcome world more conversationId messageBody
    (mentions : list Mention) timestamp (storyView : StoryView.t) state :
  (ConversationController_get world conversationId = None →
   replyToStoryHere world more conversationId messageBody mentions timestamp storyView
   = ([ErrorNoConversation "replyToStory: conversation does not exist" conversationId],
      inr ()))
  ∧ ∀ conversation messageAttributes,
      ConversationController_get world conversationId = Some conversation →
      enqueueMessageForSend more conversation messageBody mentions
        (StoryView.messageId storyView) timestamp = inr (Some messageAttributes) →
      (replyState state = None →
       reduceAll state
         (dispatchedSteps
            (replyToStoryHere world more conversationId messageBody mentions
                              timestamp storyView).1)
       = state)
      ∧ ∀ thread,
          replyState state = Some thread →
          reduceAll state
            (dispatchedSteps
               (replyToStoryHere world more conversationId messageBody mentions
                                 timestamp storyView).1)
          = mkState (isShowingStoriesView state)
              (Some (ReplyState.mk (ReplyState.messageId thread)
                       (ReplyState.replies thread ++ [messageAttributes])))
              (stories state).
Proof.
  split.
  - intros Hnone. unfold replyToStory. rewrite Hnone. reflexivity.
  - intros conversation messageAttributes Hget Hsent. unfold replyToStory.
    rewrite Hget. cbn. rewrite Hsent. cbn. unfold reduceAll, nextState, reducer.
    cbn [foldl]. split.
    + intros Hnone. rewrite Hnone. reflexivity.
    + intros thread Hthread. rewrite Hthread. reflexivity.
Qed.
End MoreThunkProperties.

(** * Further properties of the edit-eligibility rule *)

Section MoreCanEditProperties.
Context {SendState Edit : Type}.

Implicit Types (h : @EditHelpers SendState Edit) (message : Message.t SendState Edit).

(** X19. A message can be edited only when editing is switched on, the
    message is not deleted for everyone and its body is not empty; and then
    it is either a message of our own conversation, or an outgoing one that
    is less than a day old, has at most [MAX_EDIT_COUNT] entries in its edit
    history and was sent to someone. *)
Theorem canEditMessage_requires h message :
  canEditMessage h message = true →
  canEditMessages h = true
  ∧ truthy (Message.deletedForEveryone message) = false
  ∧ truthyString (Message.body message) = true
  ∧ (Some (Message.conversationId message) = getOurConversationId h
     ∨ (isOutgoing h message = true
        ∧ isMoreRecentThan h (Message.sent_at message) DAY = true
        ∧ default 0 (length <$> Message.editHistory message) ≤ MAX_EDIT_COUNT
        ∧ someSendStatus h (Message.sendStateByConversationId message) (isSent h)
          = true)).
Proof.
  unfold canEditMessage.
  destruct (canEditMessages h), (truthy (Message.deletedForEveryone message)),
    (truthyString (Message.body message));
    cbn [andb negb]; rewrite ?andb_false_r; cbn [andb];
    try (case_decide; discriminate).
  destruct (isOutgoing h message), (isMoreRecentThan h _ _); cbn [andb];
    try (case_decide; [intros _; auto|discriminate]).
  case_bool_decide as Hcount; cbn [andb];
    [|case_decide; [intros _; auto|discriminate]].
  destruct (someSendStatus h _ _); cbn [andb].
  - intros _. repeat split. right. auto.
  - case_decide; [intros _; auto|discriminate].
Qed.

(** X20. In our own conversation only three things count: a message there
    can be edited exactly when editing is switched on, the message is not
    deleted for everyone and its body is not empty, however old it is,
    however often it was edited and whether or not it was sent. *)
Theorem canEditMessage_note_to_self h message :
  Some (Message.conversationId message) = getOurConversationId h →
  canEditMessage h message
  = canEditMessages h
    && negb (truthy (Message.deletedForEveryone message))
    && truthyString (Message.body message).
Proof.
  intros Hours. unfold canEditMessage. rewrite decide_True by exact Hours.
  destruct (canEditMessages h), (truthy (Message.deletedForEveryone message)),
    (truthyString (Message.body message));
    cbn [andb negb]; rewrite ?andb_false_r; try reflexivity.
  destruct (_ && _); reflexivity.
Qed.
End MoreCanEditProperties.

(** * Properties of the stories panel *)

Section StoriesPanelProperties.
Context {V : Type} (isUnread : V → option bool).

Local Abbreviation ConversationStoryType := (ConversationStory.t V).
Local Abbreviation ids :=
  (fmap (M:=list) (ConversationStory.conversationId (V:=V))).

Implicit Types (stories : list ConversationStoryType) (current : option string).

Lemma findIndex_conversation stories i (a : ConversationStoryType) :
  NoDup (ids stories) →
  stories !! i = Some a →
  findIndex (λ x : ConversationStoryType,
               Some (ConversationStory.conversationId x)
               = Some (ConversationStory.conversationId a)) stories
  = Some i.
Proof.
  intros Hunique Hi. apply findIndex_Some. exists a.
  split; [exact Hi|]. split; [reflexivity|].
  intros j b Hj Hlt Heq. injection Heq as Heq.
  assert (j = i) as Hji; [|lia].
  eapply NoDup_lookup; [exact Hunique| |].
  - rewrite list_lookup_fmap, Hj. reflexivity.
  - rewrite list_lookup_fmap, Hi, Heq. reflexivity.
Qed.

Lemma findIndex_stranger stories (c : string) :
  c ∉ ids stories →
  findIndex (λ x : ConversationStoryType,
               Some (ConversationStory.conversationId x) = Some c) stories
  = None.
Proof.
  intros Hnot. apply findIndex_None, Forall_forall. intros x Hx Heq.
  injection Heq as Heq. apply Hnot, list_elem_of_fmap. exists x. auto.
Qed.

Lemma no_unread_find stories :
  Forall (λ c, ¬ someUnread isUnread c) stories →
  list_find (someUnread isUnread) stories = None.
Proof. intros Hnone. apply list_find_None, Hnone. Qed.

(** With nothing unread and nothing in view, "next" leaves the viewer
    closed. *)
Lemma onNextUserStories_closed stories :
  Forall (λ c, ¬ someUnread isUnread c) stories →
  onNextUserStories isUnread stories None = None.
Proof.
  intros Hnone. unfold onNextUserStories. rewrite (no_unread_find _ Hnone).
  destruct (findIndex _ _) as [i|] eqn:Hfind; [|reflexivity].
  apply findIndex_Some in Hfind as (x & _ & Heq & _). discriminate Heq.
Qed.

(** With nothing unread and pairwise different conversations, "next" from
    the conversation at index [i] leads to the one at index [i + 1], and
    closes the viewer from the last one. *)
Lemma onNextUserStories_step stories i (a : ConversationStoryType) :
  Forall (λ c, ¬ someUnread isUnread c) stories →
  NoDup (ids stories) →
  stories !! i = Some a →
  onNextUserStories isUnread stories (Some (ConversationStory.conversationId a))
  = ConversationStory.conversationId <$> stories !! (S i).
Proof.
  intros Hnone Hunique Hi. unfold onNextUserStories.
  rewrite (no_unread_find _ Hnone), (findIndex_conversation _ _ _ Hunique Hi).
  pose proof (lookup_lt_Some _ _ _ Hi) as Hlt.
  case_decide as Hlast.
  - rewrite lookup_ge_None_2 by lia. reflexivity.
  - rewrite Nat.add_1_r. reflexivity.
Qed.

(** X21. Whatever is in view, "next" either closes the viewer or opens a
    conversation of the list. *)
Theorem onNextUserStories_in_list stories current c :
  onNextUserStories isUnread stories current = Some c → c ∈ ids stories.
Proof.
  unfold onNextUserStories.
  destruct (list_find _ _) as [[i nextStory]|] eqn:Hfind.
  - intros [= <-]. apply list_find_Some in Hfind as (Hi & _).
    apply list_elem_of_fmap. exists nextStory. split; [reflexivity|].
    eapply list_elem_of_lookup_2, Hi.
  - destruct (findIndex _ _) as [i|]; [|discriminate].
    case_decide; [discriminate|].
    destruct (stories !! (i + 1)) as [nextStory|] eqn:Hi; [|discriminate].
    intros [= <-]. apply list_elem_of_fmap. exists nextStory.
    split; [reflexivity|]. eapply list_elem_of_lookup_2, Hi.
Qed.

(** X22. As long as some conversation has an unread story, "next" opens the
    first such conversation of the list, wherever the viewer stands: also
    when that means going back, or staying. *)
Theorem onNextUserStories_unread_first stories current i
    (unread : ConversationStoryType) :
  stories !! i = Some unread →
  someUnread isUnread unread →
  (∀ j earlier, stories !! j = Some earlier → j < i → ¬ someUnread isUnread earlier) →
  onNextUserStories isUnread stories current
  = Some (ConversationStory.conversationId unread).
Proof.
  intros Hi Hunread Hfirst. unfold onNextUserStories.
  assert (list_find (someUnread isUnread) stories = Some (i, unread)) as ->;
    [|reflexivity].
  apply list_find_Some. auto.
Qed.

(** X23. With nothing unread and pairwise different conversations, "next"
    and "previous" undo each other between two neighbours of the list. *)
Theorem onNext_onPrev_neighbours stories i (a b : ConversationStoryType) :
  Forall (λ c, ¬ someUnread isUnread c) stories →
  NoDup (ids stories) →
  stories !! i = Some a →
  stories !! (S i) = Some b →
  onNextUserStories isUnread stories (Some (ConversationStory.conversationId a))
  = Some (ConversationStory.conversationId b)
  ∧ onPrevUserStories stories (Some (ConversationStory.conversationId b))
    = Some (ConversationStory.conversationId a).
Proof.
  intros Hnone Hunique Ha Hb. split.
  - rewrite (onNextUserStories_step _ _ _ Hnone Hunique Ha), Hb. reflexivity.
  - unfold onPrevUserStories.
    rewrite (findIndex_conversation _ _ _ Hunique Hb), Ha. reflexivity.
Qed.

(** X24. "Previous" never closes the viewer: with a conversation in view it
    opens that conversation again or another one of the list, and from the
    first conversation of the list it stays there. *)
Theorem onPrevUserStories_stays_open stories c :
  (∃ c', onPrevUserStories stories (Some c) = Some c' ∧ (c' = c ∨ c' ∈ ids stories))
  ∧ (∀ first, stories !! 0 = Some first →
              ConversationStory.conversationId first = c →
              onPrevUserStories stories (Some c) = Some c).
Proof.
  split.
  - unfold onPrevUserStories.
    destruct (findIndex _ _) as [[|before]|] eqn:Hfind; [eauto|idtac|eauto].
    apply findIndex_Some in Hfind as (x & Hx & _ & _).
    pose proof (lookup_lt_Some _ _ _ Hx) as Hlt.
    destruct (lookup_lt_is_Some_2 stories before) as [previous Hprevious]; [lia|].
    rewrite Hprevious. eexists. split; [reflexivity|]. right.
    apply list_elem_of_fmap. exists previous. split; [reflexivity|].
    eapply list_elem_of_lookup_2, Hprevious.
  - intros first Hfirst Hid. unfold onPrevUserStories.
    assert (findIndex (λ x : ConversationStoryType,
                         Some (ConversationStory.conversationId x) = Some c) stories
            = Some 0) as ->; [|reflexivity].
    apply findIndex_Some. exists first. split; [exact Hfirst|].
    split; [rewrite Hid; reflexivity|]. intros j y _ Hlt. lia.
Qed.

Lemma onNextUserStories_walk stories :
  Forall (λ c, ¬ someUnread isUnread c) stories →
  NoDup (ids stories) →
  ∀ n i (a : ConversationStoryType),
    stories !! i = Some a →
    Nat.iter n (onNextUserStories isUnread stories)
             (Some (ConversationStory.conversationId a))
    = ConversationStory.conversationId <$> stories !! (i + n).
Proof.
  intros Hnone Hunique. induction n as [|n IH]; intros i a Hi.
  - rewrite Nat.add_0_r, Hi. reflexivity.
  - rewrite Nat.iter_succ, (IH i a Hi).
    destruct (stories !! (i + n)) as [b|] eqn:Hb.
    + cbn [fmap option_fmap option_map].
      rewrite (onNextUserStories_step _ _ _ Hnone Hunique Hb).
      replace (i + S n) with (S (i + n)) by lia. reflexivity.
    + cbn [fmap option_fmap option_map].
      apply lookup_ge_None in Hb. rewrite lookup_ge_None_2 by lia.
      apply onNextUserStories_closed, Hnone.
Qed.

(** X25. With nothing unread and pairwise different conversations, pressing
    "next" as many times as there are conversations closes the viewer,
    whichever conversation of the list it showed. *)
Theorem onNextUserStories_closes stories c :
  Forall (λ c, ¬ someUnread isUnread c) stories →
  NoDup (ids stories) →
  c ∈ ids stories →
  Nat.iter (length stories) (onNextUserStories isUnread stories) (Some c) = None.
Proof.
  intros Hnone Hunique Hin.
  apply list_elem_of_fmap in Hin as (a & -> & Hin).
  apply list_elem_of_lookup_1 in Hin as [i Hi].
  rewrite (onNextUserStories_walk _ Hnone Hunique _ _ _ Hi).
  rewrite lookup_ge_None_2 by lia. reflexivity.
Qed.
End StoriesPanelProperties.

(** * Properties of the media grid item *)

Section MediaGridProperties.
Context {M A : Type}.
Variables isImageTypeSupported isVideoTypeSupported : string → bool.

Implicit Types (mediaItem : MediaItem.t M A) (state : GridState.t).

Lemma clicks_keep_imageBroken (onClick checkmark : bool) n state :
  GridState.imageBroken
    (Nat.iter n (λ s, (onButtonClick onClick checkmark s).2) state)
  = GridState.imageBroken state.
Proof.
  induction n as [|n IH]; [reflexivity|].
  rewrite Nat.iter_succ. unfold onButtonClick at 1.
  destruct onClick, checkmark; cbn [snd GridState.imageBroken]; exact IH.
Qed.

(** X26. Once the image of a grid item has failed to load, the item shows
    an icon or nothing, never a thumbnail again, however often it is
    clicked afterwards. *)
Theorem broken_image_stays_hidden mediaItem state (onClick checkmark : bool) n :
  ∀ src,
    (∀ checkmarkShown,
       renderContent isImageTypeSupported isVideoTypeSupported mediaItem
         (Nat.iter n (λ s, (onButtonClick onClick checkmark s).2) (onImageError state))
       ≠ ImageThumbnail src checkmarkShown)
    ∧ renderContent isImageTypeSupported isVideoTypeSupported mediaItem
        (Nat.iter n (λ s, (onButtonClick onClick checkmark s).2) (onImageError state))
      ≠ VideoThumbnail src.
Proof.
  intros src. unfold renderContent.
  rewrite clicks_keep_imageBroken. cbn [onImageError GridState.imageBroken].
  destruct (MediaItem.attachment mediaItem); [|split; [intros ?|]; discriminate].
  destruct (supportedType isImageTypeSupported _); [split; [intros ?|]; discriminate|].
  destruct (supportedType isVideoTypeSupported _); split; try intros ?; discriminate.
Qed.

(** X27. A click on a grid item that was given [onClick] calls it and leaves
    the state of the item alone, whatever [checkmark] says; without
    [onClick], a click calls nothing, and with [checkmark] two clicks bring
    the state back. *)
Theorem grid_item_click state (checkmark : bool) :
  onButtonClick true checkmark state = (true, state)
  ∧ (onButtonClick false checkmark state).1 = false
  ∧ (onButtonClick false checkmark (onButtonClick false checkmark state).2).2 = state.
Proof.
  destruct state as [broken clicked], checkmark; repeat split.
  unfold onButtonClick. cbn. rewrite negb_involutive. reflexivity.
Qed.
End MediaGridProperties.

(** * The further properties at work on concrete values *)

Lemma story_changed_again_witness :
  (∃ i, firstWithId "n"
          (stories (nextState Sample.pair (STORY_CHANGED Sample.between))) i
          Sample.between)
  ∧ (reducer (nextState Sample.pair (STORY_CHANGED Sample.between))
             (STORY_CHANGED Sample.between)
     = Identical
     ↔ isDownloading (Story.attachment Sample.between) = false).
Proof.
  apply (story_changed_again Sample.pair Sample.between).
  unfold messageIds. compute_done.
Defined.

Lemma reducer_keeps_order_witness :
  ascendingByTimestamp
    (stories (nextState Sample.pair (STORY_CHANGED Sample.lateViewed))).
Proof.
  apply (reducer_keeps_order Sample.pair (STORY_CHANGED Sample.lateViewed)).
  - unfold ascendingByTimestamp. compute_done.
  - intros payload i prevStory [= <-] Hfirst.
    apply list_find_firstWithId in Hfirst. vm_compute in Hfirst.
    injection Hfirst as _ <-. reflexivity.
Defined.

Lemma reducer_keeps_ids_witness :
  messageIds (nextState Sample.pair (MARK_STORY_READ "a")) = messageIds Sample.pair.
Proof.
  apply (reducer_keeps_ids Sample.pair (MARK_STORY_READ "a")).
  - intros id conversationId. discriminate.
  - intros payload. discriminate.
Defined.

Lemma reducer_keeps_thread_witness :
  ∃ thread',
    replyState (nextState Sample.thread (REPLY_TO_STORY Sample.reply3)) = Some thread'
    ∧ ((∀ messageId replies,
          REPLY_TO_STORY Sample.reply3
          ≠ (LOAD_STORY_REPLIES messageId replies : Sample.Action)) →
       ReplyState.messageId thread' = "a"
       ∧ 2 ≤ length (ReplyState.replies thread')
       ∧ length (ReplyState.replies thread') ≤ 2 + 1).
Proof.
  apply (reducer_keeps_thread Sample.thread (REPLY_TO_STORY Sample.reply3)
           (ReplyState.mk "a" [Sample.reply1; Sample.reply2])).
  reflexivity.
Defined.

Lemma deleteStoryForEveryone_flags_story_witness :
  stories (reduceAll Sample.pair
             (dispatched (trace (deleteStoryForEveryone Sample.quiet Scenario.viewLate
                                   Sample.pair))))
  = take 1 (stories Sample.pair)
    ++ Story.with_deletedForEveryone true Sample.late :: drop 2 (stories Sample.pair).
Proof.
  apply (proj2 (deleteStoryForEveryone_flags_story Sample.quiet Scenario.viewLate
                  Sample.pair)
           [StorySendState.mk (Conversation.mk "X")] 1 Sample.late).
  - reflexivity.
  - apply list_find_firstWithId. reflexivity.
Defined.

Lemma deleteStoryForEveryone_recipients_witness :
  ∃ ids,
    deleteStoryForEveryone Sample.quiet Sample.viewA (Sample.store [Sample.storyB])
    = (((λ conversation,
           SendDeleteForEveryoneMessage conversation (DeleteOptions.mk DAY "A" 1000))
          <$> omap (ConversationController_get Sample.quiet) ids)
       ++ [Dispatch (DOE_STORY "A")], inr ())
    ∧ NoDup ids
    ∧ ∀ cid,
        cid ∈ ids
        ↔ cid ∈ (λ s, Conversation.id (StorySendState.recipient s))
                  <$> [StorySendState.mk (Conversation.mk "X");
                       StorySendState.mk (Conversation.mk "Y")]
          ∧ ∀ item byConversation,
              item ∈ stories (Sample.store [Sample.storyB]) →
              Story.timestamp item = 1000%Z →
              Story.sendStateByConversationId item = Some byConversation →
              byConversation !! cid = None.
Proof.
  apply (deleteStoryForEveryone_recipients Sample.quiet Sample.viewA
           [StorySendState.mk (Conversation.mk "X");
            StorySendState.mk (Conversation.mk "Y")]
           (Sample.store [Sample.storyB])).
  reflexivity.
Defined.

Lemma reply_observed_twice_witness :
  nextState (nextState Sample.thread (MESSAGE_CHANGED "r1" "c" Sample.reply1Edited))
            (MESSAGE_CHANGED "r1" "c" Sample.reply1Edited)
  = nextState Sample.thread (MESSAGE_CHANGED "r1" "c" Sample.reply1Edited).
Proof.
  apply (reply_observed_twice Sample.thread "r1" "c" Sample.reply1Edited).
  reflexivity.
Defined.

Lemma reply_ids_stay_unique_witness :
  ∃ thread',
    replyState (nextState Sample.thread (MESSAGE_CHANGED "r3" "c" Sample.reply3))
    = Some thread'
    ∧ NoDup (Message.id <$> ReplyState.replies thread').
Proof.
  apply (reply_ids_stay_unique Sample.thread "r3" "c" Sample.reply3
           (ReplyState.mk "a" [Sample.reply1; Sample.reply2])).
  - reflexivity.
  - reflexivity.
  - compute_done.
Defined.


Lemma queueStoryDownload_never_requeues_witness :
  (Scenario.queueStoryDownloadOf "a" (Sample.store [Sample.stillDownloading])).2
  = inr ()
  ∧ (QueueAttachmentDownloads Sample.reply1 : Scenario.StepType)
      ∉ (Scenario.queueStoryDownloadOf "a" (Sample.store [Sample.stillDownloading])).1.
Proof.
  destruct (proj2 (queueStoryDownload_never_requeues Sample.quiet Scenario.services "a"
                     (Sample.store [Sample.stillDownloading]))
              0 Sample.stillDownloading (Attachment.mk None Sample.Downloading))
    as [Hdone Hnever].
  - apply list_find_firstWithId. reflexivity.
  - reflexivity.
  - right. reflexivity.
  - split; [exact Hdone|]. apply (Hnever Sample.reply1).
Defined.

Lemma queueStoryDownload_resolves_in_store_witness :
  stories (reduceAll Sample.pair
             (dispatchedSteps (Scenario.queueStoryDownloadOf "a" Sample.pair).1))
    !! 1
  = Some (Story.with_attachment
            (Attachment.mk (Some "/home/signal/attachments/a.jpg") Sample.Downloaded)
            Sample.late).
Proof.
  apply (queueStoryDownload_resolves_in_store Sample.quiet Scenario.services "a"
           Sample.pair 1 Sample.late (Attachment.mk None Sample.Downloaded)
           "attachments/a.jpg").
  - apply list_find_firstWithId. reflexivity.
  - reflexivity.
  - reflexivity.
  - reflexivity.
  - discriminate.
  - reflexivity.
Defined.

Lemma replyToStory_outcome_witness :
  replyToStory Scenario.lonely Scenario.services "c" "hello" [] 2000 Sample.viewA
  = ([ErrorNoConversation "replyToStory: conversation does not exist" "c"
      : Scenario.StepType], inr ())
  ∧ reduceAll Sample.thread (dispatchedSteps (Scenario.replyToStoryOf "c" "hello").1)
    = mkState true
        (Some (ReplyState.mk "a"
                 [Sample.reply1; Sample.reply2;
                  Sample.message "sent" "hello" (Some "A")]))
        [].
Proof.
  split.
  - apply (proj1 (replyToStory_outcome Scenario.lonely Scenario.services "c" "hello"
                    [] 2000%Z Sample.viewA Sample.thread)).
    reflexivity.
  - destruct (proj2 (replyToStory_outcome Sample.quiet Scenario.services "c" "hello"
                       [] 2000%Z Sample.viewA Sample.thread)
                (Conversation.mk "c") (Sample.message "sent" "hello" (Some "A"))
                eq_refl eq_refl) as [_ Hopen].
    apply (Hopen (ReplyState.mk "a" [Sample.reply1; Sample.reply2])). reflexivity.
Defined.

Lemma canEditMessage_requires_witness :
  canEditMessages Sample.lenient = true
  ∧ truthyString (Message.body Sample.reply1) = true.
Proof.
  destruct (canEditMessage_requires Sample.lenient Sample.reply1) as (Hon & _ & Hbody & _).
  - reflexivity.
  - split; assumption.
Defined.

Lemma canEditMessage_note_to_self_witness :
  canEditMessage Scenario.strict Scenario.noteToSelf = true.
Proof.
  rewrite (canEditMessage_note_to_self Scenario.strict Scenario.noteToSelf).
  - reflexivity.
  - reflexivity.
Defined.

Lemma onNextUserStories_in_list_witness :
  "c2" ∈ ConversationStory.conversationId <$> Scenario.allRead.
Proof.
  apply (onNextUserStories_in_list id Scenario.allRead (Some "c1") "c2").
  reflexivity.
Defined.

Lemma onNextUserStories_unread_first_witness :
  onNextUserStories id Scenario.oneUnread (Some "c2") = Some "c2".
Proof.
  apply (onNextUserStories_unread_first id Scenario.oneUnread (Some "c2") 1
           (ConversationStory.mk "c2" [Some false; Some true])).
  - reflexivity.
  - unfold someUnread. compute_done.
  - intros j earlier Hj Hlt. destruct j as [|j]; [|lia].
    injection Hj as <-. unfold someUnread. compute_done.
Defined.

Lemma onNext_onPrev_neighbours_witness :
  onNextUserStories id Scenario.allRead (Some "c2") = Some "c3"
  ∧ onPrevUserStories Scenario.allRead (Some "c3") = Some "c2".
Proof.
  apply (onNext_onPrev_neighbours id Scenario.allRead 1
           (ConversationStory.mk "c2" [None; Some false])
           (ConversationStory.mk "c3" [Some false])).
  - unfold someUnread. compute_done.
  - compute_done.
  - reflexivity.
  - reflexivity.
Defined.

Lemma onPrevUserStories_stays_open_witness :
  onPrevUserStories Scenario.allRead (Some "c1") = Some "c1".
Proof.
  apply (proj2 (onPrevUserStories_stays_open Scenario.allRead "c1")
           (ConversationStory.mk "c1" [Some false])).
  - reflexivity.
  - reflexivity.
Defined.

Lemma onNextUserStories_closes_witness :
  Nat.iter 3 (onNextUserStories id Scenario.allRead) (Some "c2") = None.
Proof.
  apply (onNextUserStories_closes id Scenario.allRead "c2").
  - unfold someUnread. compute_done.
  - compute_done.
  - compute_done.
Defined.

Lemma markStoryRead_persist_rejected_witness :
  completion (markStoryRead Scenario.diskFull "a" Sample.pair)
  = inl (JsError "disk full")
  ∧ dispatched (trace (markStoryRead Scenario.diskFull "a" Sample.pair)) = [].
Proof.
  destruct (markStoryRead_persist_rejected Scenario.diskFull Sample.pair "a" 1
              Sample.late Sample.reply1 (JsError "disk full"))
    as (Hthrown & Hnone & _).
  - apply list_find_firstWithId. reflexivity.
  - reflexivity.
  - reflexivity.
  - reflexivity.
  - reflexivity.
  - split; assumption.
Defined.
